(** * Shipbuilding risk propagation and cost simulation

    A shallow embedding of the probabilistic core of the repository
    (the classes [BayesianNetworkModel], [MonteCarloSimulator] and
    [DecisionSupportSystem], identical in [src/3.py] and [src/4.py]).
    The identifier conversion [_uri_to_id] of the ontology connector of
    [src/4.py] is embedded as well.

    Conventions of the embedding.
    - Python [float] is abstracted by the class [Float]: the program text is
      written once over its operations and run at two instances, exact
      rationals ([Q], instance [exact]) and IEEE 754 binary64 (Rocq's
      primitive floats, instance [binary64]).  Statements that rest on the
      laws of arithmetic are made at the exact instance (equality of values
      is [Qeq]); the others hold at every instance, and closed runs are also
      evaluated in binary64.  A bound proved at the exact instance is not
      a statement about binary64, where every operation rounds.
    - A Python [dict] that the program iterates ([risk_structure],
      [cost_impacts], the [events] of a scenario) is an insertion-ordered
      association list; a [dict] that is only read and written by key
      ([evidence], the CPTs, one row of the result frame) is a [gmap].
    - Exceptions are the error monad [result]; the mutable part of the
      system (the evidence dict of the one shared network object and
      NumPy's random generator) is threaded by the state monad [M], where a
      raised exception keeps the state reached so far.
    - [calculate_probability] recurses on the parents of a factor.  Its
      [fuel] is the depth of nested calls the interpreter still allows;
      exhausting it is Python's [RecursionError].
    - Console output ([print]) and plotting are not modelled. *)

From Stdlib Require Import ZArith QArith Qabs Lqa Lia.
From Stdlib Require Import Floats.PrimFloat Uint63.
From stdpp Require Import gmap strings list fin_maps.
From Stdlib Require Import Ascii.

Open Scope Z_scope.

(** ** Arithmetic of Python floats *)

Class Float (num : Type) : Type := {
  f0 : num;                       (* the literal 0.0 *)
  f1 : num;                       (* the literal 1.0 *)
  fadd : num -> num -> num;
  fsub : num -> num -> num;
  fmul : num -> num -> num;
  fdiv : num -> num -> num;
  flt : num -> num -> bool;       (* x < y *)
  of_int : Z -> num;              (* float(n) *)
  literal : Q -> num              (* a decimal literal such as 0.30 *)
}.

Declare Scope num_scope.
Delimit Scope num_scope with num.
Infix "+" := fadd : num_scope.
Infix "-" := fsub : num_scope.
Infix "*" := fmul : num_scope.
Infix "/" := fdiv : num_scope.
Infix "<?" := flt : num_scope.

(** Exact arithmetic. *)
#[export] Instance exact : Float Q := {|
  f0 := 0%Q;
  f1 := 1%Q;
  fadd := Qplus;
  fsub := Qminus;
  fmul := Qmult;
  fdiv := Qdiv;
  flt := fun x y => negb (Qle_bool y x);
  of_int := inject_Z;
  literal := fun q => q
|}.

(** IEEE 754 binary64.  A decimal literal with small numerator and
    denominator is the correctly rounded quotient of the two, which is the
    double nearest to the decimal. *)
Definition float_of_Z (z : Z) : float :=
  if (z <? 0)%Z then PrimFloat.opp (PrimFloat.of_uint63 (Uint63.of_Z (- z)))
  else PrimFloat.of_uint63 (Uint63.of_Z z).

#[export] Instance binary64 : Float float := {|
  f0 := PrimFloat.zero;
  f1 := PrimFloat.one;
  fadd := PrimFloat.add;
  fsub := PrimFloat.sub;
  fmul := PrimFloat.mul;
  fdiv := PrimFloat.div;
  flt := PrimFloat.ltb;
  of_int := float_of_Z;
  literal := fun q => PrimFloat.div (float_of_Z (Qnum q)) (float_of_Z (Zpos (Qden q)))
|}.

(** ** Exceptions *)

Inductive exn : Type :=
  | KeyError (key : string)       (* a dict or frame indexed by a missing key *)
  | RecursionError.               (* maximum recursion depth exceeded *)

Inductive result (A : Type) : Type :=
  | Ok (a : A)
  | Raise (e : exn).
Arguments Ok {A} a.
Arguments Raise {A} e.

Definition bind {A B} (m : result A) (k : A -> result B) : result B :=
  match m with
  | Ok a => k a
  | Raise e => Raise e
  end.

Notation "x <- m ;; k" := (bind m (fun x => k))
  (at level 100, m at next level, right associativity).

(** A list comprehension whose element expression may raise. *)
Fixpoint mapM {A B} (f : A -> result B) (l : list A) : result (list B) :=
  match l with
  | [] => Ok []
  | x :: l' => y <- f x ;; ys <- mapM f l' ;; Ok (y :: ys)
  end.

(** A [for] loop over [l] that updates an accumulator and may raise. *)
Fixpoint foldM {A B} (f : A -> B -> result A) (l : list B) (a : A) : result A :=
  match l with
  | [] => Ok a
  | x :: l' => a' <- f a x ;; foldM f l' a'
  end.

(** ** Python built-ins used by the program *)

(** An insertion-ordered [dict] with string keys.  The keys of a dict are
    distinct; a lookup takes the first entry with the key. *)
Definition dict (V : Type) : Type := list (string * V).

Fixpoint dict_get {V} (d : dict V) (k : string) : option V :=
  match d with
  | [] => None
  | (k', v) :: d' => if String.eqb k' k then Some v else dict_get d' k
  end.

Definition keys {V} (d : dict V) : list string := map fst d.

(** [d[k]]: a missing key raises [KeyError]. *)
Definition subscript {V} (d : dict V) (k : string) : result V :=
  match dict_get d k with
  | Some v => Ok v
  | None => Raise (KeyError k)
  end.

(** [range(n)] for a Python [int]. *)
Definition range (n : Z) : list Z := map Z.of_nat (seq 0 (Z.to_nat n)).

Definition len {A} (l : list A) : Z := Z.of_nat (length l).

(** Truth value of an [int]. *)
Definition bool_of_int (x : Z) : bool := negb (x =? 0).

(** ** Layer 1: the ontology interface *)

Record RiskFactor {num : Type} : Type := {
  name : string;
  probability : num;
  parents : list string
}.
Arguments RiskFactor num : clear implicits.

Record CostImpact {num : Type} : Type := {
  factor : string;
  base_cost : num;
  multiplier_if_triggered : num
}.
Arguments CostImpact num : clear implicits.

Record ShipbuildingOntology {num : Type} : Type := {
  risk_structure : dict (RiskFactor num);
  cost_impacts : dict (CostImpact num)
}.
Arguments ShipbuildingOntology num : clear implicits.

(** The sample tables of [ShipbuildingOntology] ([_build_sample_structure]
    and [_build_cost_impacts] in [src/3.py], [_get_sample_structure] and
    [_get_sample_cost_impacts] in [src/4.py]). *)
Section SampleData.
Context {num : Type} `{Float num}.

Definition sample_structure : dict (RiskFactor num) := [
  (* Root causes *)
  ("material_delay", {| name := "강재납기지연"; probability := literal 0.30; parents := [] |});
  ("design_change", {| name := "설계변경"; probability := literal 0.15; parents := [] |});
  ("manpower_shortage", {| name := "인력부족"; probability := literal 0.25; parents := [] |});
  ("bad_weather", {| name := "악천후"; probability := literal 0.20; parents := [] |});
  (* Intermediate factors *)
  ("block_delay", {| name := "블록작업지연"; probability := literal 0.0;
                     parents := ["material_delay"; "manpower_shortage"] |});
  ("rework", {| name := "재작업"; probability := literal 0.0;
                parents := ["design_change"; "bad_weather"] |});
  ("idle_time", {| name := "대기시간"; probability := literal 0.0;
                   parents := ["material_delay"; "block_delay"] |});
  (* Cost drivers *)
  ("overtime", {| name := "특근투입"; probability := literal 0.0;
                  parents := ["block_delay"; "idle_time"] |});
  ("material_waste", {| name := "자재손실"; probability := literal 0.0;
                        parents := ["rework"; "design_change"] |});
  ("equipment_extend", {| name := "장비임대연장"; probability := literal 0.0;
                          parents := ["block_delay"; "bad_weather"] |})
]%string.

Definition sample_cost_impacts : dict (CostImpact num) := [
  ("overtime", {| factor := "특근투입"; base_cost := literal 3.0;
                  multiplier_if_triggered := literal 1.5 |});
  ("material_waste", {| factor := "자재손실"; base_cost := literal 1.0;
                        multiplier_if_triggered := literal 2.0 |});
  ("equipment_extend", {| factor := "장비임대연장"; base_cost := literal 2.0;
                          multiplier_if_triggered := literal 1.3 |});
  ("rework", {| factor := "재작업"; base_cost := literal 1.5;
                multiplier_if_triggered := literal 1.8 |})
]%string.

Definition sample_ontology : ShipbuildingOntology num :=
  {| risk_structure := sample_structure; cost_impacts := sample_cost_impacts |}.
End SampleData.

(** ** Layer 2: the Bayesian network *)

Section BayesianNetworkModel.
Context {num : Type} `{Float num}.

(** The object state of [BayesianNetworkModel].  Its [risk_structure]
    attribute is the ontology's own dict, read here through [ontology]. *)
Record BayesianNetworkModel : Type := {
  ontology : ShipbuildingOntology num;
  cpt : gmap string (gmap (list bool) num);
  evidence : gmap string bool
}.

(** [_initialize_cpt]: the conditional probability tables, keyed by the
    tuple of parent states in the order of [parents]. *)
Definition cpt_table (tt tf ft ff : Q) : gmap (list bool) num :=
  <[ [true; true] := literal tt ]>
  (<[ [true; false] := literal tf ]>
  (<[ [false; true] := literal ft ]>
  (<[ [false; false] := literal ff ]> ∅))).

Definition _initialize_cpt : gmap string (gmap (list bool) num) :=
  <[ "block_delay"%string := cpt_table 0.85 0.60 0.55 0.10 ]>
  (<[ "rework"%string := cpt_table 0.75 0.50 0.30 0.05 ]>
  (<[ "idle_time"%string := cpt_table 0.90 0.70 0.50 0.05 ]>
  (<[ "overtime"%string := cpt_table 0.95 0.70 0.60 0.10 ]>
  (<[ "material_waste"%string := cpt_table 0.80 0.60 0.40 0.05 ]>
  (<[ "equipment_extend"%string := cpt_table 0.85 0.65 0.45 0.10 ]> ∅))))).

(** [__init__]: no evidence at construction. *)
Definition BayesianNetworkModel_init (o : ShipbuildingOntology num)
  : BayesianNetworkModel :=
  {| ontology := o; cpt := _initialize_cpt; evidence := ∅ |}.

(** [set_evidence]: [self.evidence[factor] = occurred]. *)
Definition set_evidence (self : BayesianNetworkModel)
    (factor : string) (occurred : bool) : BayesianNetworkModel :=
  {| ontology := ontology self;
     cpt := cpt self;
     evidence := <[ factor := occurred ]> (evidence self) |}.

(** [np.prod] of a list of floats. *)
Definition np_prod (l : list num) : num := fold_left fmul l f1.

(** The tuple [bool(i & (1 << j)) for j in range(k)]. *)
Definition parent_states_of (k : Z) (i : Z) : list bool :=
  map (fun j => bool_of_int (Z.land i (Z.shiftl 1 j))) (range k).

(** [1.0 if self.evidence[factor] else 0.0] *)
Definition observed (occurred : bool) : num := if occurred then f1 else f0.

(** [calculate_probability].  [fuel] bounds the depth of nested calls. *)
Fixpoint calculate_probability (self : BayesianNetworkModel) (fuel : nat)
    (factor : string) {struct fuel} : result num :=
  match fuel with
  | O => Raise RecursionError
  | S fuel =>
    risk <- subscript (risk_structure (ontology self)) factor ;;
    match parents risk with
    | [] =>
      (* root node *)
      match evidence self !! factor with
      | Some occurred => Ok (observed occurred)
      | None => Ok (probability risk)
      end
    | _ :: _ =>
      match evidence self !! factor with
      | Some occurred => Ok (observed occurred)
      | None =>
        parent_probs <- mapM (calculate_probability self fuel) (parents risk) ;;
        match cpt self !! factor with
        | None =>
          (* no CPT: noisy-OR of the parents *)
          Ok (f1 - np_prod (map (fun p => f1 - p) parent_probs))%num
        | Some table =>
          foldM
            (fun total_prob i =>
               let parent_states := parent_states_of (len (parents risk)) i in
               combination_prob <-
                 foldM
                   (fun combination_prob '(parent, state) =>
                      parent_prob <- calculate_probability self fuel parent ;;
                      Ok (combination_prob *
                          (if state : bool then parent_prob
                           else f1 - parent_prob))%num)
                   (zip (parents risk) parent_states) f1 ;;
               match table !! parent_states with
               | Some conditional_prob =>
                 Ok (total_prob + combination_prob * conditional_prob)%num
               | None => Ok total_prob
               end)
            (range (2 ^ len (parents risk))) f0
        end
      end
    end
  end.

(** [get_all_probabilities]: the dict comprehension over the keys of
    [risk_structure]. *)
Definition get_all_probabilities (self : BayesianNetworkModel) (fuel : nat)
  : result (dict num) :=
  mapM (fun name => p <- calculate_probability self fuel name ;; Ok (name, p))
       (keys (risk_structure (ontology self))).
End BayesianNetworkModel.
Arguments BayesianNetworkModel num : clear implicits.

(** ** The mutable world: the shared network object and NumPy's generator *)

Section World.
Context {num : Type} `{Float num}.

(** [bayesian_model] is the one [BayesianNetworkModel] object that the
    decision support system and its simulator both hold; [drawn] counts
    the calls of [np.random.random()] served so far. *)
Record World : Type := {
  bayesian_model : BayesianNetworkModel num;
  drawn : nat
}.

(** State and exceptions: a raised exception leaves the state as it was
    when it was raised. *)
Definition M (A : Type) : Type := World -> result A * World.

Definition ret {A} (a : A) : M A := fun w => (Ok a, w).

Definition bindM {A B} (m : M A) (k : A -> M B) : M B :=
  fun w =>
    match m w with
    | (Ok a, w') => k a w'
    | (Raise e, w') => (Raise e, w')
    end.

Definition lift {A} (r : result A) : M A := fun w => (r, w).

Definition get_model : M (BayesianNetworkModel num) :=
  fun w => (Ok (bayesian_model w), w).

Definition put_model (bm : BayesianNetworkModel num) : M unit :=
  fun w => (Ok tt, {| bayesian_model := bm; drawn := drawn w |}).

(** A [for] loop in [M]. *)
Fixpoint forM {A B} (f : A -> B -> M A) (l : list B) (a : A) : M A :=
  match l with
  | [] => ret a
  | x :: l' => bindM (f a x) (forM f l')
  end.
End World.
Arguments World num : clear implicits.
Arguments M num A : clear implicits.

Notation "x <~ m ;; k" := (bindM m (fun x => k))
  (at level 100, m at next level, right associativity).

(** ** Layer 2: the Monte Carlo simulator *)

Section MonteCarloSimulator.
Context {num : Type} `{Float num}.

(** The successive values of [np.random.random()]. *)
Variable random : nat -> num.
(** The depth of nested calls available to [calculate_probability]. *)
Variable depth : nat.

(** A cell of the result frame: a cost or an occurrence flag. *)
Inductive value : Type :=
  | VFloat (x : num)
  | VBool (b : bool).

(** One row (the dict [cost_breakdown]) and the frame built from the rows. *)
Definition DataFrame : Type := list (gmap string value).

Record MonteCarloSimulator : Type := {
  sim_ontology : ShipbuildingOntology num;
  sim_base_cost : num
}.

(** [__init__]: the base cost is 100.0. *)
Definition MonteCarloSimulator_init (o : ShipbuildingOntology num)
  : MonteCarloSimulator :=
  {| sim_ontology := o; sim_base_cost := literal 100.0 |}.

Definition np_random : M num num :=
  fun w => (Ok (random (drawn w)),
            {| bayesian_model := bayesian_model w; drawn := S (drawn w) |}).

(** The inner loop that samples the occurrence of every risk factor. *)
Definition sample_factor (iteration_state : gmap string bool) (factor : string)
  : M num (gmap string bool) :=
  bm <~ get_model ;;
  prob <~ lift (calculate_probability bm depth factor) ;;
  u <~ np_random ;;
  ret (<[ factor := (u <? prob)%num ]> iteration_state).

(** The body of the loop over [cost_impacts.items()]. *)
Definition add_cost (iteration_state : gmap string bool)
    (acc : num * gmap string value) (item : string * CostImpact num)
  : num * gmap string value :=
  let '(total_cost, cost_breakdown) := acc in
  let '(factor, impact) := item in
  match iteration_state !! factor with
  | Some true =>
    let additional_cost :=
      (base_cost impact * multiplier_if_triggered impact)%num in
    ((total_cost + additional_cost)%num,
     <[ factor := VFloat additional_cost ]> cost_breakdown)
  | _ => (total_cost, <[ factor := VFloat f0 ]> cost_breakdown)
  end.

(** The cost part of one iteration, given the sampled occurrences.
    [cost_breakdown.update(iteration_state)] overwrites the entries whose
    key is also a factor id. *)
Definition cost_row (self : MonteCarloSimulator)
    (iteration_state : gmap string bool) : gmap string value :=
  let '(total_cost, cost_breakdown) :=
    fold_left (add_cost iteration_state)
              (cost_impacts (sim_ontology self))
              (sim_base_cost self,
               {[ "base"%string := VFloat (sim_base_cost self) ]}) in
  let cost_breakdown := <[ "total"%string := VFloat total_cost ]> cost_breakdown in
  (VBool <$> iteration_state) ∪ cost_breakdown.

(** One iteration of the simulation loop. *)
Definition iteration (self : MonteCarloSimulator) : M num (gmap string value) :=
  bm <~ get_model ;;
  iteration_state <~
    forM sample_factor (keys (risk_structure (ontology bm))) ∅ ;;
  ret (cost_row self iteration_state).

(** [run_simulation]. *)
Definition run_simulation (self : MonteCarloSimulator) (n_iterations : Z)
  : M num DataFrame :=
  forM (fun results _ => row <~ iteration self ;; ret (results ++ [row]))
       (range n_iterations) [].

(** [results[key]]: the column, with [None] (NaN) where a row lacks the
    key; a key that no row has is not a column. *)
Definition column (results : DataFrame) (key : string)
  : result (list (option value)) :=
  if existsb (fun row => bool_decide (is_Some (row !! key))) results
  then Ok (map (fun row => row !! key) results)
  else Raise (KeyError key).

(** [x > threshold] on a cell; a flag counts as 1.0 or 0.0 and NaN
    compares false. *)
Definition exceeds (threshold : num) (cell : option value) : bool :=
  match cell with
  | Some (VFloat x) => (threshold <? x)%num
  | Some (VBool b) => (threshold <? observed b)%num
  | None => false
  end.

(** [.mean()] of a boolean series. *)
Definition mean_bool (flags : list bool) : num :=
  (of_int (len (filter (fun b => b = true) flags)) / of_int (len flags))%num.

(** The two budget statistics of [analyze_results].  The remaining
    entries of the analysis dict (mean, median, standard deviation and
    quantiles, which pandas computes from the same column) are left out of
    the model; the statements about [analyze_results] are made for columns
    of float totals, on which none of them raises.  On a column of
    occurrence flags (a factor registered under the id [total]) pandas
    raises [TypeError] from [quantile], where the model returns the two
    fractions: no statement is made about such a column. *)
Record Analysis : Type := {
  prob_over_budget : num;
  prob_over_budget_20 : num
}.

Definition analyze_results (self : MonteCarloSimulator) (results : DataFrame)
  : result Analysis :=
  total_costs <- column results "total" ;;
  Ok {| prob_over_budget :=
          mean_bool (map (exceeds (sim_base_cost self * literal 1.1)%num) total_costs);
        prob_over_budget_20 :=
          mean_bool (map (exceeds (sim_base_cost self * literal 1.2)%num) total_costs) |}.
End MonteCarloSimulator.
Arguments value num : clear implicits.
Arguments DataFrame num : clear implicits.
Arguments MonteCarloSimulator num : clear implicits.
Arguments Analysis num : clear implicits.

(** ** Layer 3: the decision support system *)

Section DecisionSupportSystem.
Context {num : Type} `{Float num}.
Variable random : nat -> num.
Variable depth : nat.

(** The system owns the ontology, the network (held in the [World]) and
    the simulator. *)
Record DecisionSupportSystem : Type := {
  dss_ontology : ShipbuildingOntology num;
  simulator : MonteCarloSimulator num
}.

Definition DecisionSupportSystem_init (o : ShipbuildingOntology num)
  : DecisionSupportSystem * World num :=
  ({| dss_ontology := o; simulator := MonteCarloSimulator_init o |},
   {| bayesian_model := BayesianNetworkModel_init o; drawn := 0 |}).

(** [self.bayesian_model.set_evidence(factor, occurred)] *)
Definition set_evidenceM (factor : string) (occurred : bool) : M num unit :=
  bm <~ get_model ;;
  put_model (set_evidence bm factor occurred).

(** The loop [for factor, occurred in events.items()]. *)
Definition apply_events (events : dict bool) : M num unit :=
  forM (fun _ '(factor, occurred) => set_evidenceM factor occurred) events tt.

(** [update_status] *)
Definition update_status (self : DecisionSupportSystem) (events : dict bool)
  : M num unit :=
  apply_events events.

(** [analyze_current_risk]: computes all probabilities, then prints. *)
Definition analyze_current_risk (self : DecisionSupportSystem) : M num unit :=
  bm <~ get_model ;;
  probs <~ lift (get_all_probabilities bm depth) ;;
  ret tt.

(** [run_cost_simulation] *)
Definition run_cost_simulation (self : DecisionSupportSystem) (n_iterations : Z)
  : M num (DataFrame num * Analysis num) :=
  results <~ run_simulation random depth (simulator self) n_iterations ;;
  analysis <~ lift (analyze_results (simulator self) results) ;;
  ret (results, analysis).

(** [what_if_analysis] *)
Definition what_if_analysis (self : DecisionSupportSystem) (events : dict bool)
  : M num (DataFrame num * Analysis num) :=
  (* back up the current state *)
  bm <~ get_model ;;
  let original_evidence := evidence bm in
  (* apply the scenario *)
  _ <~ apply_events events ;;
  (* analyse *)
  _ <~ analyze_current_risk self ;;
  ra <~ run_cost_simulation self 5000 ;;
  (* restore *)
  bm' <~ get_model ;;
  _ <~ put_model {| ontology := ontology bm'; cpt := cpt bm';
                    evidence := original_evidence |} ;;
  ret ra.
End DecisionSupportSystem.
Arguments DecisionSupportSystem num : clear implicits.

(** The two nested loops of the CPT branch of [calculate_probability],
    with the recursive call as a parameter. *)
Section Marginalisation.
Context {num : Type} `{Float num}.

Definition combination (rec : string -> result num) (ps : list string)
    (parent_states : list bool) : result num :=
  foldM (fun combination_prob '(parent, state) =>
           parent_prob <- rec parent ;;
           Ok (combination_prob *
               (if state : bool then parent_prob else f1 - parent_prob))%num)
        (zip ps parent_states) f1.

Definition marginalise (rec : string -> result num) (ps : list string)
    (table : gmap (list bool) num) : result num :=
  foldM (fun total_prob i =>
           let parent_states := parent_states_of (len ps) i in
           combination_prob <- combination rec ps parent_states ;;
           match table !! parent_states with
           | Some conditional_prob =>
             Ok (total_prob + combination_prob * conditional_prob)%num
           | None => Ok total_prob
           end)
        (range (2 ^ len ps)) f0.
End Marginalisation.

(** The combinations of parent states in the order the loop of
    [calculate_probability] visits them, for [k] parents. *)
Definition enumeration (k : nat) : list (list bool) :=
  map (parent_states_of (Z.of_nat k)) (range (2 ^ Z.of_nat k)).

(** ** Vocabulary of the statements *)

Section Graph.
Context {num : Type} (self : BayesianNetworkModel num).

(** [f] is a key of [risk_structure]. *)
Definition registered (f : string) : Prop :=
  is_Some (dict_get (risk_structure (ontology self)) f).

(** [p] is listed among the parents of the registered factor [f]. *)
Definition parent_of (f p : string) : Prop :=
  exists risk, dict_get (risk_structure (ontology self)) f = Some risk
               /\ p ∈ parents risk.

(** The same link, leaving a factor that is under no evidence: the links
    that [calculate_probability] follows. *)
Definition unobserved_parent_of (f p : string) : Prop :=
  parent_of f p /\ evidence self !! f = None.

(** Every listed parent is itself registered. *)
Definition closed : Prop := forall f p, parent_of f p -> registered p.

(** The parent relation has no cycle. *)
Definition acyclic : Prop := forall f, ~ tc parent_of f f.
End Graph.

(** Sums and products of exact numbers, and the quantities of the
    marginalisation over parent states. *)
Definition Qsum (l : list Q) : Q := fold_right Qplus 0%Q l.

Definition in_unit (x : Q) : Prop := (0 <= x /\ x <= 1)%Q.

(** Weight of one combination of parent states: the product over the
    parents of [P parent] when the combination marks the parent true and of
    [1 - P parent] otherwise. *)
Fixpoint weight (P : string -> Q) (ps : list string) (states : list bool) : Q :=
  match ps, states with
  | p :: ps', b :: states' =>
    ((if b then P p else 1 - P p) * weight P ps' states')%Q
  | _, _ => 1%Q
  end.

(** The CPT entry of a combination, zero when the table has none. *)
Definition entry_or_zero (table : gmap (list bool) Q) (states : list bool) : Q :=
  match table !! states with
  | Some c => c
  | None => 0%Q
  end.

(** Root probabilities and CPT entries are probabilities. *)
Definition roots_in_unit (self : BayesianNetworkModel Q) : Prop :=
  forall f risk,
    dict_get (risk_structure (ontology self)) f = Some risk ->
    parents risk = [] -> in_unit (probability risk).

Definition cpt_in_unit (self : BayesianNetworkModel Q) : Prop :=
  forall (f : string) (table : gmap (list bool) Q) (states : list bool) (c : Q),
    cpt self !! f = Some table -> table !! states = Some c -> in_unit c.

(** A draw of [np.random.random()] lies in the half-open interval [0, 1):
    it compares below 1.0 and not below 0.0. *)
Definition unit_draw {num : Type} `{Float num} (u : num) : Prop :=
  (u <? f1)%num = true /\ (u <? f0)%num = false.

(** The sum of the cost contributions of the drivers that a row marks as
    occurred. *)
Definition triggered_costs (impacts : dict (CostImpact Q))
    (row : gmap string (value Q)) : Q :=
  Qsum (map (fun item : string * CostImpact Q =>
               match row !! fst item with
               | Some (VBool true) =>
                 (base_cost (snd item) * multiplier_if_triggered (snd item))%Q
               | _ => 0%Q
               end) impacts).

(** What a row of the result frame is: the cost row of an occurrence
    vector that holds, for exactly the registered factors, the outcome of
    comparing one draw with the factor's probability. *)
Definition is_sample {num : Type} `{Float num} (random : nat -> num) (depth : nat)
    (self : MonteCarloSimulator num) (bm : BayesianNetworkModel num)
    (row : gmap string (value num)) : Prop :=
  exists iteration_state : gmap string bool,
    row = cost_row self iteration_state
    /\ (forall f, f ∈ keys (risk_structure (ontology bm)) ->
                  is_Some (iteration_state !! f))
    /\ (forall f (b : bool), iteration_state !! f = Some b ->
          f ∈ keys (risk_structure (ontology bm))
          /\ exists i prob, calculate_probability bm depth f = Ok prob
                            /\ b = (random i <? prob)%num).

(** A frame of samples: it is not empty and every row carries a total
    cost. *)
Definition float_totals {num : Type} (results : DataFrame num) : Prop :=
  results <> []
  /\ forall row, row ∈ results ->
        exists total, row !! "total"%string = Some (VFloat total).

(** The evidence left by the loop over the events of a scenario. *)
Definition with_events {num : Type} (bm : BayesianNetworkModel num)
    (events : dict bool) : BayesianNetworkModel num :=
  fold_left (fun bm (event : string * bool) =>
               set_evidence bm (fst event) (snd event))
            events bm.

(** The four combinations of two parent states. *)
Definition all_pairs : list (list bool) :=
  [[true; true]; [true; false]; [false; true]; [false; false]].

(** ** Executable checks of the hypotheses *)

(** Position of the first entry with key [f]. *)
Fixpoint position {V} (d : dict V) (f : string) : nat :=
  match d with
  | [] => O
  | (k, _) :: d' => if String.eqb k f then O else S (position d' f)
  end.

(** Every parent is registered ahead of its child. *)
Definition topologically_ordered {num : Type} (d : dict (RiskFactor num)) : bool :=
  forallb (fun entry : string * RiskFactor num =>
             forallb (fun p => (position d p <? position d (fst entry))%nat)
                     (parents (snd entry)))
          d.

(** Every listed parent is a key of the dict. *)
Definition closedb {num : Type} (d : dict (RiskFactor num)) : bool :=
  forallb (fun entry : string * RiskFactor num =>
             forallb (fun p => bool_decide (is_Some (dict_get d p)))
                     (parents (snd entry)))
          d.

Definition in_unitb (x : Q) : bool := Qle_bool 0 x && Qle_bool x 1.

Definition roots_in_unitb (self : BayesianNetworkModel Q) : bool :=
  forallb (fun entry : string * RiskFactor Q =>
             match parents (snd entry) with
             | [] => in_unitb (probability (snd entry))
             | _ :: _ => true
             end)
          (risk_structure (ontology self)).

Definition cpt_in_unitb (self : BayesianNetworkModel Q) : bool :=
  forallb (fun entry : string * gmap (list bool) Q =>
             forallb (fun cell : list bool * Q => in_unitb (snd cell))
                     (map_to_list (snd entry)))
          (map_to_list (cpt self)).

(** Every registered factor has a probability within the given depth. *)
Definition computable {num : Type} `{Float num}
    (self : BayesianNetworkModel num) (depth : nat) : Prop :=
  forall f, f ∈ keys (risk_structure (ontology self)) ->
            exists v, calculate_probability self depth f = Ok v.

Definition computableb {num : Type} `{Float num}
    (self : BayesianNetworkModel num) (depth : nat) : bool :=
  forallb (fun f => match calculate_probability self depth f with
                    | Ok _ => true
                    | Raise _ => false
                    end)
          (keys (risk_structure (ontology self))).

(** ** Inputs used in closed evaluations *)

Section Inputs.
Context {num : Type} `{Float num}.

Definition node (p : Q) (ps : list string) : RiskFactor num :=
  {| name := ""; probability := literal p; parents := ps |}.

(** Two factors that list each other as parent. *)
Definition cyclic_ontology : ShipbuildingOntology num :=
  {| risk_structure := [("a"%string, node 0.0 ["b"%string]);
                        ("b"%string, node 0.0 ["a"%string])];
     cost_impacts := [] |}.

(** A factor whose parent is not registered. *)
Definition dangling_ontology : ShipbuildingOntology num :=
  {| risk_structure := [("a"%string, node 0.0 ["ghost"%string])];
     cost_impacts := [] |}.

(** A root factor registered under the id [total]. *)
Definition total_ontology : ShipbuildingOntology num :=
  {| risk_structure := [("total"%string, node 0.5 [])];
     cost_impacts := [] |}.

Definition world_of (bm : BayesianNetworkModel num) : World num :=
  {| bayesian_model := bm; drawn := 0 |}.
End Inputs.

(** A fixed sequence of draws in [0, 1). *)
Definition sevenths (n : nat) : Q := (Z.of_nat (n mod 7) # 7)%Q.
Definition quarters {num : Type} `{Float num} (n : nat) : num := literal 0.25.

(** The scenario of the third run of [main]. *)
Definition scenario : dict bool :=
  [("material_delay"%string, true); ("manpower_shortage"%string, false)].

(** A frame of three total costs. *)
Definition three_costs : DataFrame Q :=
  [ {[ "total"%string := VFloat 104.5%Q ]};
    {[ "total"%string := VFloat 113.0%Q ]};
    {[ "total"%string := VFloat 121.6%Q ]} ].

(** ** Further vocabulary and inputs *)

(** The product of exact numbers. *)
Definition Qprod (l : list Q) : Q := fold_right Qmult 1%Q l.

(** The cost of a run in which every cost driver occurs. *)
Definition all_costs (impacts : dict (CostImpact Q)) : Q :=
  Qsum (map (fun item : string * CostImpact Q =>
               (base_cost (snd item) * multiplier_if_triggered (snd item))%Q)
            impacts).

(** Every cost driver has a positive base cost and multiplier. *)
Definition positive_costs (impacts : dict (CostImpact Q)) : Prop :=
  forall f impact, (f, impact) ∈ impacts ->
    (0 < base_cost impact /\ 0 < multiplier_if_triggered impact)%Q.

Definition positive_costsb (impacts : dict (CostImpact Q)) : bool :=
  forallb (fun item : string * CostImpact Q =>
             negb (Qle_bool (base_cost (snd item)) 0)
             && negb (Qle_bool (multiplier_if_triggered (snd item)) 0))
          impacts.

(** The evidence that a list of events leaves on one factor. *)
Definition last_event (events : dict bool) (f : string) : option bool :=
  dict_get (reverse events) f.

Section MoreInputs.
Context {num : Type} `{Float num}.


(** A factor without a table, below two roots. *)
Definition fallback_ontology : ShipbuildingOntology num :=
  {| risk_structure := [("material_delay"%string, node 0.30 []);
                        ("bad_weather"%string, node 0.20 []);
                        ("launch_delay"%string,
                         node 0.0 ["material_delay"%string; "bad_weather"%string])];
     cost_impacts := [("launch_delay"%string,
                       {| factor := ""; base_cost := literal 4.0;
                          multiplier_if_triggered := literal 1.5 |});
                      ("penalty"%string,
                       {| factor := ""; base_cost := literal 2.0;
                          multiplier_if_triggered := literal 1.0 |})] |}.

(** A root, and a factor whose second parent is not registered. *)
Definition ghost_parent_ontology : ShipbuildingOntology num :=
  {| risk_structure := [("material_delay"%string, node 0.30 []);
                        ("block_delay"%string,
                         node 0.0 ["material_delay"%string; "ghost"%string])];
     cost_impacts := [] |}.

(** Two roots and a factor below them whose table holds 1.0 for every
    combination of parent states. *)
Definition certain_ontology : ShipbuildingOntology num :=
  {| risk_structure := [("a"%string, node 0.10 []);
                        ("b"%string, node 0.40 []);
                        ("c"%string, node 0.0 ["a"%string; "b"%string])];
     cost_impacts := [] |}.

Definition certain_model : BayesianNetworkModel num :=
  {| ontology := certain_ontology;
     cpt := {[ "c"%string := cpt_table 1.0 1.0 1.0 1.0 ]};
     evidence := ∅ |}.

(** A factor without a table below a single root. *)
Definition lone_parent_ontology : ShipbuildingOntology num :=
  {| risk_structure := [("a"%string, node 0.3 []);
                        ("b"%string, node 0.0 ["a"%string])];
     cost_impacts := [] |}.
End MoreInputs.

(** The checks of the root probabilities and of the table entries, on
    binary64 values. *)
Definition float_in_unitb (x : float) : bool :=
  PrimFloat.leb PrimFloat.zero x && PrimFloat.leb x PrimFloat.one.

Definition float_roots_in_unitb (self : BayesianNetworkModel float) : bool :=
  forallb (fun entry : string * RiskFactor float =>
             match parents (snd entry) with
             | [] => float_in_unitb (probability (snd entry))
             | _ :: _ => true
             end)
          (risk_structure (ontology self)).

Definition float_cpt_in_unitb (self : BayesianNetworkModel float) : bool :=
  forallb (fun entry : string * gmap (list bool) float =>
             forallb (fun cell : list bool * float => float_in_unitb (snd cell))
                     (map_to_list (snd entry)))
          (map_to_list (cpt self)).

(** ** Identifiers from URI fragments ([_uri_to_id] in [src/4.py])

    The model is the function on strings of ASCII characters, which
    [ascii_only] singles out: there a character is a byte, the classes
    [[A-Z]], [[a-z]] and [[0-9]] are as below, and [str.lower] changes the
    capitals A to Z only.  Outside ASCII [str.lower] follows the Unicode
    case mapping, which is not modelled; every statement about
    [_uri_to_id] assumes [ascii_only].  The two substitutions of [re.sub]
    are written as the left-to-right scans that the regular expression
    engine performs: a match is replaced and the scan resumes after it, a
    position without a match is copied. *)

Definition is_ascii (c : ascii) : bool := (N_of_ascii c <? 128)%N.

(** Every character of the string is an ASCII character. *)
Fixpoint ascii_only (s : string) : bool :=
  match s with
  | EmptyString => true
  | String c s' => is_ascii c && ascii_only s'
  end.

Definition is_upper (c : ascii) : bool :=
  (65 <=? N_of_ascii c)%N && (N_of_ascii c <=? 90)%N.          (* [A-Z] *)
Definition is_lower (c : ascii) : bool :=
  (97 <=? N_of_ascii c)%N && (N_of_ascii c <=? 122)%N.         (* [a-z] *)
Definition is_digit (c : ascii) : bool :=
  (48 <=? N_of_ascii c)%N && (N_of_ascii c <=? 57)%N.          (* [0-9] *)
Definition is_newline (c : ascii) : bool := (N_of_ascii c =? 10)%N.

(** Where the scan of the first substitution stands: outside a match, at
    the capital of a match, or in the run of small letters that the greedy
    [[a-z]+] of a match consumes. *)
Inductive scan_mode : Type := Free | Head | Tail.

(** [re.sub('(.)([A-Z][a-z]+)', r'\1_\2', s)]: a match starts at any
    character other than a newline that is followed by a capital and a
    small letter. *)
Fixpoint sub_word (mode : scan_mode) (s : string) : string :=
  match s with
  | EmptyString => EmptyString
  | String c rest =>
    match mode with
    | Head => String c (sub_word Tail rest)
    | _ =>
      if match mode with Tail => is_lower c | _ => false end
      then String c (sub_word Tail rest)
      else
        match rest with
        | String u (String l _) =>
          if negb (is_newline c) && is_upper u && is_lower l
          then String c (String "_" (sub_word Head rest))
          else String c (sub_word Free rest)
        | _ => String c (sub_word Free rest)
        end
    end
  end.

(** [re.sub('([a-z0-9])([A-Z])', r'\1_\2', s)] *)
Fixpoint sub_hump (s : string) : string :=
  match s with
  | EmptyString => EmptyString
  | String c tl =>
    match tl with
    | String u rest =>
      if (is_lower c || is_digit c) && is_upper u
      then String c (String "_" (String u (sub_hump rest)))
      else String c (sub_hump tl)
    | EmptyString => String c EmptyString
    end
  end.

(** [str.lower], on a string of ASCII characters. *)
Definition lower_char (c : ascii) : ascii :=
  if is_upper c then ascii_of_N (N_of_ascii c + 32) else c.

Fixpoint lower (s : string) : string :=
  match s with
  | EmptyString => EmptyString
  | String c s' => String (lower_char c) (lower s')
  end.

Definition _uri_to_id (uri_fragment : string) : string :=
  let s1 := sub_word Free uri_fragment in
  lower (sub_hump s1).

(** No character of the string is a capital. *)
Fixpoint no_capital (s : string) : bool :=
  match s with
  | EmptyString => true
  | String c s' => negb (is_upper c) && no_capital s'
  end.

(** The string without its underscores. *)
Fixpoint without_underscores (s : string) : string :=
  match s with
  | EmptyString => EmptyString
  | String c s' =>
    if Ascii.eqb c "_" then without_underscores s'
    else String c (without_underscores s')
  end.

(** * Properties *)

(** ** Closed evaluations *)

(** The loop visits the combinations with the first parent as the lowest
    bit of the counter. *)
Example enumeration_of_two_parents :
  enumeration 2 = [[false; false]; [true; false]; [false; true]; [true; true]].
Proof. reflexivity. Qed.

Example range_of_three : range 3 = [0; 1; 2].
Proof. reflexivity. Qed.

(** A root without evidence has its base probability; [block_delay] has
    the marginal 0.3475. *)
Example sample_root_probability :
  calculate_probability (BayesianNetworkModel_init sample_ontology) 1 "material_delay"
  = Ok 0.30%Q.
Proof. reflexivity. Qed.

Example sample_block_delay_probability :
  match calculate_probability (BayesianNetworkModel_init sample_ontology) 2 "block_delay" with
  | Ok v => Qeq_bool v 0.3475
  | Raise _ => false
  end = true.
Proof. vm_compute. reflexivity. Qed.

(** A factor that is not registered. *)
Example sample_unknown_factor :
  calculate_probability (BayesianNetworkModel_init sample_ontology) 5 "typhoon"
  = Raise (A := Q) (KeyError "typhoon").
Proof. reflexivity. Qed.

(** The analysis of the frame of no iterations has no column to read. *)
Example analyze_empty_frame :
  analyze_results (MonteCarloSimulator_init (num := Q) sample_ontology) []
  = Raise (KeyError "total").
Proof. reflexivity. Qed.

(** ** Loops that may raise *)

Section Loops.
Context {A B : Type}.

Lemma mapM_Ok (f : A -> result B) l ys :
  mapM f l = Ok ys -> Forall2 (fun x y => f x = Ok y) l ys.
Proof.
  revert ys. induction l as [|x l IH]; simpl; intros ys Hm.
  - injection Hm as <-. constructor.
  - destruct (f x) as [y|e] eqn:Hx; simpl in Hm; [|discriminate].
    destruct (mapM f l) as [ys'|e] eqn:Hl; simpl in Hm; [|discriminate].
    injection Hm as <-. constructor; auto.
Qed.

Lemma mapM_Ok_elem (f : A -> result B) l ys x :
  mapM f l = Ok ys -> x ∈ l -> exists y, f x = Ok y.
Proof.
  intros Hm Hx. apply mapM_Ok in Hm.
  apply list_elem_of_lookup in Hx as [i Hi].
  destruct (Forall2_lookup_l _ _ _ _ _ Hm Hi) as [y [_ Hy]]. eauto.
Qed.

Lemma mapM_Ok_value (f : A -> result B) l ys y :
  mapM f l = Ok ys -> y ∈ ys -> exists x, x ∈ l /\ f x = Ok y.
Proof.
  intros Hm Hy. apply mapM_Ok in Hm.
  apply list_elem_of_lookup in Hy as [i Hi].
  destruct (Forall2_lookup_r _ _ _ _ _ Hm Hi) as [x [Hx Hf]].
  exists x. split; [eapply list_elem_of_lookup_2, Hx|exact Hf].
Qed.

Lemma mapM_all_Ok (f : A -> result B) (g : A -> B) l :
  (forall x, x ∈ l -> f x = Ok (g x)) -> mapM f l = Ok (map g l).
Proof.
  induction l as [|x l IH]; simpl; intros Hall; [reflexivity|].
  rewrite Hall by set_solver. simpl. rewrite IH by set_solver. reflexivity.
Qed.

Lemma mapM_Raise (f : A -> result B) l e :
  (forall x, x ∈ l -> f x = Raise e \/ exists y, f x = Ok y) ->
  (exists x, x ∈ l /\ f x = Raise e) ->
  mapM f l = Raise e.
Proof.
  induction l as [|x l IH]; simpl; intros Hall [x0 [Hin Hx0]].
  - inversion Hin.
  - destruct (Hall x) as [Hx|[y Hx]]; [left| |]; rewrite Hx; simpl; [reflexivity|].
    rewrite IH; [reflexivity| |].
    + intros z Hz. apply Hall. right. exact Hz.
    + apply elem_of_cons in Hin as [->|Hin]; [congruence|]. eauto.
Qed.

End Loops.

(** ** Dictionaries and ranges *)

Lemma dict_get_keys {V} (d : dict V) k v : dict_get d k = Some v -> k ∈ keys d.
Proof.
  induction d as [|[k' v'] d IH]; simpl; [discriminate|].
  destruct (String.eqb_spec k' k) as [->|Hne]; intros Hg; [left|right; auto].
Qed.

Lemma range_nonpositive n : n <= 0 -> range n = [].
Proof. intros Hn. unfold range. replace (Z.to_nat n) with O by lia. reflexivity. Qed.

Lemma range_length n : length (range n) = Z.to_nat n.
Proof. unfold range. rewrite length_map, length_seq. reflexivity. Qed.

(** ** The probability engine, for any float arithmetic *)

Section Engine.
Context {num : Type} `{Float num}.
Implicit Types (self : BayesianNetworkModel num) (fuel : nat)
               (factor : string) (risk : RiskFactor num).

Lemma calculate_probability_unregistered self fuel factor :
  dict_get (risk_structure (ontology self)) factor = None ->
  calculate_probability self (S fuel) factor = Raise (KeyError factor).
Proof. intros Hg. simpl. unfold subscript. rewrite Hg. reflexivity. Qed.

Lemma calculate_probability_observed self fuel factor risk (occurred : bool) :
  dict_get (risk_structure (ontology self)) factor = Some risk ->
  evidence self !! factor = Some occurred ->
  calculate_probability self (S fuel) factor = Ok (observed occurred).
Proof.
  intros Hg Hev. simpl. unfold subscript. rewrite Hg. simpl.
  destruct (parents risk); rewrite Hev; reflexivity.
Qed.

Lemma calculate_probability_root self fuel factor risk :
  dict_get (risk_structure (ontology self)) factor = Some risk ->
  parents risk = [] -> evidence self !! factor = None ->
  calculate_probability self (S fuel) factor = Ok (probability risk).
Proof.
  intros Hg Hp Hev. simpl. unfold subscript. rewrite Hg. simpl.
  rewrite Hp, Hev. reflexivity.
Qed.

Lemma calculate_probability_inner self fuel factor risk :
  dict_get (risk_structure (ontology self)) factor = Some risk ->
  parents risk <> [] -> evidence self !! factor = None ->
  calculate_probability self (S fuel) factor =
    (parent_probs <- mapM (calculate_probability self fuel) (parents risk) ;;
     match cpt self !! factor with
     | None => Ok (f1 - np_prod (map (fun p => f1 - p) parent_probs))%num
     | Some table =>
       marginalise (calculate_probability self fuel) (parents risk) table
     end).
Proof.
  intros Hg Hp Hev. simpl. unfold subscript. rewrite Hg. simpl.
  destruct (parents risk) as [|p ps] eqn:Hps; [congruence|].
  rewrite Hev. reflexivity.
Qed.
End Engine.

Section Termination.
Context {num : Type} `{Float num}.
Implicit Types (self : BayesianNetworkModel num) (fuel : nat)
               (factor : string) (risk : RiskFactor num).

Lemma combination_Ok (rec : string -> result num) (P : string -> num) ps states :
  (forall p, p ∈ ps -> rec p = Ok (P p)) ->
  exists w, combination rec ps states = Ok w.
Proof.
  intros Hrec. unfold combination.
  match goal with |- context [foldM ?f _ _] => set (step := f) end.
  generalize (f1 : num).
  revert states. induction ps as [|p ps IH]; intros states a.
  - simpl. eauto.
  - destruct states as [|b states]; [simpl; eauto|].
    simpl. rewrite Hrec by set_solver. simpl. apply IH.
    intros q Hq. apply Hrec. set_solver.
Qed.

Lemma marginalise_Ok (rec : string -> result num) (P : string -> num) ps table :
  (forall p, p ∈ ps -> rec p = Ok (P p)) ->
  exists v, marginalise rec ps table = Ok v.
Proof.
  intros Hrec. unfold marginalise. generalize (f0 : num).
  induction (range (2 ^ len ps)) as [|i l IH]; intros a; simpl; [eauto|].
  destruct (combination_Ok rec P ps (parent_states_of (len ps) i) Hrec) as [w ->].
  simpl. destruct (table !! _); simpl; apply IH.
Qed.

(** With the parents' probabilities at hand, an unobserved inner factor
    has one. *)
Lemma calculate_probability_inner_Ok self fuel factor risk :
  dict_get (risk_structure (ontology self)) factor = Some risk ->
  (forall p, p ∈ parents risk -> exists v, calculate_probability self fuel p = Ok v) ->
  exists v, calculate_probability self (S fuel) factor = Ok v.
Proof.
  intros Hg Hps.
  destruct (evidence self !! factor) as [b|] eqn:Hev.
  { exists (observed b). simpl. unfold subscript. rewrite Hg. simpl.
    destruct (parents risk); rewrite Hev; reflexivity. }
  destruct (decide (parents risk = [])) as [Hroot|Hinner].
  { erewrite calculate_probability_root by eassumption. eauto. }
  erewrite calculate_probability_inner by eassumption.
  set (P := fun p => match calculate_probability self fuel p with
                     | Ok v => v | Raise _ => f0 end).
  assert (HP : forall p, p ∈ parents risk -> calculate_probability self fuel p = Ok (P p)).
  { intros p Hp. destruct (Hps p Hp) as [v Hv]. unfold P. rewrite Hv. reflexivity. }
  rewrite (mapM_all_Ok _ P) by exact HP. simpl.
  destruct (cpt self !! factor) as [table|]; [|eauto].
  eapply marginalise_Ok, HP.
Qed.

(** In a closed acyclic graph the depth of the recursion is bounded by
    the number of factors on the chain of descendants walked so far. *)
Lemma calculate_probability_chain self fuel :
  closed self -> acyclic self ->
  forall (path : list string) factor,
    NoDup path ->
    (forall x, x ∈ path -> tc (parent_of self) x factor) ->
    registered self factor ->
    (length (risk_structure (ontology self)) <= fuel + length path)%nat ->
    exists v, calculate_probability self fuel factor = Ok v.
Proof.
  intros Hclosed Hacyc. induction fuel as [|fuel IH]; intros path factor Hnd Hpath Hreg Hlen.
  - exfalso.
    assert (Hfresh : factor ∉ path).
    { intros Hin. exact (Hacyc factor (Hpath factor Hin)). }
    assert (Hsub : (length (factor :: path) <= length (keys (risk_structure (ontology self))))%nat).
    { apply submseteq_length, NoDup_submseteq.
      - constructor; assumption.
      - intros x Hx. apply elem_of_cons in Hx as [->|Hx].
        + destruct Hreg as [r Hr]. eapply dict_get_keys, Hr.
        + destruct (Hpath x Hx) as [? ? [r [Hr _]]|? ? ? [r [Hr _]] _];
            eapply dict_get_keys, Hr. }
    unfold keys in Hsub. rewrite length_map in Hsub. simpl in *. lia.
  - destruct Hreg as [risk Hg].
    eapply calculate_probability_inner_Ok; [exact Hg|].
    intros p Hp.
    assert (Hlink : parent_of self factor p) by (exists risk; auto).
    assert (Hfresh : factor ∉ path).
    { intros Hin. exact (Hacyc factor (Hpath factor Hin)). }
    apply (IH (factor :: path)).
    + constructor; assumption.
    + intros x Hx. apply elem_of_cons in Hx as [->|Hx].
      * apply tc_once, Hlink.
      * eapply tc_r; eauto.
    + eapply Hclosed, Hlink.
    + simpl. lia.
Qed.

(** Enough fuel: the number of registered factors. *)
Lemma calculate_probability_terminates self fuel factor :
  closed self -> acyclic self -> registered self factor ->
  (length (risk_structure (ontology self)) <= fuel)%nat ->
  exists v, calculate_probability self fuel factor = Ok v.
Proof.
  intros Hc Ha Hr Hl.
  apply (calculate_probability_chain self fuel Hc Ha [] factor);
    [constructor|intros x Hx; inversion Hx|assumption|simpl; lia].
Qed.
End Termination.

Section Cycles.
Context {num : Type} `{Float num}.
Implicit Types (self : BayesianNetworkModel num) (fuel : nat)
               (factor : string) (risk : RiskFactor num).

(** In a closed graph the only failure is exhaustion of the depth. *)
Lemma combination_benign (rec : string -> result num) ps states :
  (forall p, p ∈ ps -> rec p = Raise RecursionError \/ exists v, rec p = Ok v) ->
  combination rec ps states = Raise RecursionError
  \/ exists w, combination rec ps states = Ok w.
Proof.
  intros Hrec. unfold combination.
  match goal with |- context [foldM ?f _ _] => set (step := f) end.
  generalize (f1 : num).
  revert states. induction ps as [|p ps IH]; intros states a.
  - simpl. eauto.
  - destruct states as [|b states]; [simpl; eauto|].
    simpl. destruct (Hrec p) as [->|[v ->]]; [set_solver|simpl; auto|].
    simpl. apply IH. intros q Hq. apply Hrec. set_solver.
Qed.

Lemma marginalise_benign (rec : string -> result num) ps table :
  (forall p, p ∈ ps -> rec p = Raise RecursionError \/ exists v, rec p = Ok v) ->
  marginalise rec ps table = Raise RecursionError
  \/ exists v, marginalise rec ps table = Ok v.
Proof.
  intros Hrec. unfold marginalise. generalize (f0 : num).
  induction (range (2 ^ len ps)) as [|i l IH]; intros a; simpl; [eauto|].
  destruct (combination_benign rec ps (parent_states_of (len ps) i) Hrec) as [->|[w ->]];
    simpl; [auto|].
  destruct (table !! _); simpl; apply IH.
Qed.

Lemma mapM_benign {A B} (f : A -> result B) l :
  (forall x, x ∈ l -> f x = Raise RecursionError \/ exists y, f x = Ok y) ->
  mapM f l = Raise RecursionError \/ exists ys, mapM f l = Ok ys.
Proof.
  induction l as [|x l IH]; simpl; intros Hall; [eauto|].
  destruct (Hall x) as [->|[y ->]]; [set_solver|simpl; auto|]. simpl.
  destruct IH as [->|[ys ->]]; [set_solver|simpl; auto|simpl; eauto].
Qed.

Lemma calculate_probability_benign self fuel :
  closed self ->
  forall factor, registered self factor ->
    calculate_probability self fuel factor = Raise RecursionError
    \/ exists v, calculate_probability self fuel factor = Ok v.
Proof.
  intros Hclosed. induction fuel as [|fuel IH]; intros factor [risk Hg]; [left; reflexivity|].
  assert (Hps : forall p, p ∈ parents risk ->
            calculate_probability self fuel p = Raise RecursionError
            \/ exists v, calculate_probability self fuel p = Ok v).
  { intros p Hp. apply IH. eapply Hclosed. exists risk; eauto. }
  destruct (evidence self !! factor) as [b|] eqn:Hev.
  { right. exists (observed b). simpl. unfold subscript. rewrite Hg. simpl.
    destruct (parents risk); rewrite Hev; reflexivity. }
  destruct (decide (parents risk = [])) as [Hroot|Hinner].
  { erewrite calculate_probability_root by eassumption. eauto. }
  erewrite calculate_probability_inner by eassumption.
  destruct (mapM_benign (calculate_probability self fuel) (parents risk) Hps) as [->|[ys ->]];
    simpl; [auto|].
  destruct (cpt self !! factor) as [table|]; [|eauto].
  apply marginalise_benign, Hps.
Qed.

(** A set of unobserved registered factors, each with a parent in the
    set, never yields a probability. *)
Lemma calculate_probability_trapped self (T : string -> Prop) :
  closed self ->
  (forall f, T f -> exists p, unobserved_parent_of self f p /\ T p) ->
  forall fuel factor, T factor ->
    calculate_probability self fuel factor = Raise RecursionError.
Proof.
  intros Hclosed Htrap. induction fuel as [|fuel IH]; intros factor HT; [reflexivity|].
  destruct (Htrap factor HT) as [p [[[risk [Hg Hp]] Hev] HTp]].
  assert (Hinner : parents risk <> []) by (intros Heq; rewrite Heq in Hp; inversion Hp).
  erewrite calculate_probability_inner by eassumption.
  rewrite (mapM_Raise _ _ RecursionError); [reflexivity| |].
  - intros q Hq. apply calculate_probability_benign; [assumption|].
    eapply Hclosed. exists risk; eauto.
  - exists p. split; [assumption|]. apply IH, HTp.
Qed.
End Cycles.

Ltac exact_arith :=
  cbn [f0 f1 fadd fsub fmul fdiv flt of_int literal exact] in *.

(** ** Exact sums and products *)

Lemma Qsum_app l k : (Qsum (l ++ k) == Qsum l + Qsum k)%Q.
Proof. induction l as [|x l IH]; simpl; [lra|]. rewrite IH. lra. Qed.

Lemma Qsum_scale {A} (g : A -> Q) (c : Q) l :
  (Qsum (map (fun x => g x * c) l) == Qsum (map g l) * c)%Q.
Proof. induction l as [|x l IH]; simpl; [lra|]. rewrite IH. lra. Qed.

Lemma Qsum_ext {A} (g h : A -> Q) l :
  (forall x, x ∈ l -> (g x == h x)%Q) -> (Qsum (map g l) == Qsum (map h l))%Q.
Proof.
  induction l as [|x l IH]; simpl; intros Hext; [lra|].
  rewrite (Hext x) by set_solver. rewrite IH; [lra|]. intros; apply Hext; set_solver.
Qed.

Lemma Qsum_bounds {A} (g h : A -> Q) l :
  (forall x, x ∈ l -> (0 <= g x /\ g x <= h x)%Q) ->
  (0 <= Qsum (map g l) /\ Qsum (map g l) <= Qsum (map h l))%Q.
Proof.
  induction l as [|x l IH]; simpl; intros Hb; [lra|].
  destruct (Hb x) as [? ?]; [left|].
  destruct IH as [? ?]; [intros z Hz; apply Hb; right; exact Hz|]. lra.
Qed.

Lemma Qsum_Permutation l k : l ≡ₚ k -> (Qsum l == Qsum k)%Q.
Proof. induction 1; simpl; lra. Qed.

Lemma weight_nonneg P ps states :
  (forall p, p ∈ ps -> in_unit (P p)) -> (0 <= weight P ps states)%Q.
Proof.
  revert states. induction ps as [|p ps IH]; intros states HP; simpl; [lra|].
  destruct states as [|b states]; [lra|].
  assert (Hp : in_unit (P p)) by (apply HP; set_solver).
  assert (Hw : (0 <= weight P ps states)%Q) by (apply IH; intros; apply HP; set_solver).
  destruct Hp. destruct b; nra.
Qed.

Lemma weight_snoc P ps p states b :
  length ps = length states ->
  (weight P (ps ++ [p]) (states ++ [b]) ==
   weight P ps states * (if b then P p else 1 - P p))%Q.
Proof.
  revert states. induction ps as [|q ps IH]; intros [|c states] Hlen; simpl in *;
    try discriminate; [lra|].
  rewrite IH by lia. lra.
Qed.

(** The noisy-OR of probabilities is a probability. *)
Lemma np_prod_in_unit (l : list Q) a :
  in_unit a -> Forall in_unit l -> in_unit (fold_left Qmult l a).
Proof.
  intros Ha Hl. revert a Ha. induction Hl as [|x l Hx Hl IH]; intros a Ha; simpl; [assumption|].
  apply IH. destruct Ha, Hx. split; nra.
Qed.

(** ** The two loops of the CPT branch, in exact arithmetic *)

Section ExactLoops.
Variables (rec : string -> result Q) (P : string -> Q).

Lemma combination_exact ps states :
  (forall p, p ∈ ps -> rec p = Ok (P p)) ->
  exists w, combination rec ps states = Ok w /\ (w == weight P ps states)%Q.
Proof.
  intros Hrec. unfold combination.
  match goal with |- context [foldM ?f _ _] => set (step := f) end.
  assert (Hgen : forall a, exists w,
             foldM step (zip ps states) a = Ok w /\ (w == a * weight P ps states)%Q).
  { revert states. induction ps as [|p ps' IH]; intros states a.
    - simpl. exists a. split; [reflexivity|lra].
    - destruct states as [|b states]; [simpl; exists a; split; [reflexivity|lra]|].
      simpl. rewrite Hrec by set_solver. simpl.
      destruct (IH (fun q Hq => Hrec q ltac:(set_solver)) states
                   (a * (if b then P p else f1 - P p))%num) as [w [Hw Heq]].
      exists w. split; [exact Hw|]. rewrite Heq. exact_arith. lra. }
  destruct (Hgen f1) as [w [Hw Heq]]. exists w. split; [exact Hw|].
  rewrite Heq. exact_arith. lra.
Qed.

Lemma marginalise_exact ps table :
  (forall p, p ∈ ps -> rec p = Ok (P p)) ->
  exists v, marginalise rec ps table = Ok v /\
    (v == Qsum (map (fun states => weight P ps states * entry_or_zero table states)
                    (map (parent_states_of (len ps)) (range (2 ^ len ps)))))%Q.
Proof.
  intros Hrec. unfold marginalise.
  match goal with |- context [foldM ?f _ _] => set (step := f) end.
  assert (Hgen : forall l a, exists v,
             foldM step l a = Ok v /\
             (v == a + Qsum (map (fun states => weight P ps states * entry_or_zero table states)
                                 (map (parent_states_of (len ps)) l)))%Q).
  { induction l as [|i l IH]; intros a; simpl.
    - exists a. split; [reflexivity|lra].
    - destruct (combination_exact ps (parent_states_of (len ps) i) Hrec) as [w [Hc Hw]].
      unfold step at 1. cbv zeta. rewrite Hc. simpl. unfold entry_or_zero at 1.
      destruct (table !! parent_states_of (len ps) i) as [c|]; simpl.
      + destruct (IH (a + w * c)%num) as [v [Hv Heq]]. exists v. split; [exact Hv|].
        rewrite Heq, <- Hw. exact_arith. lra.
      + destruct (IH a) as [v [Hv Heq]]. exists v. split; [exact Hv|].
        rewrite Heq. lra. }
  destruct (Hgen (range (2 ^ len ps)) f0) as [v [Hv Heq]]. exists v. split; [exact Hv|].
  rewrite Heq. exact_arith. lra.
Qed.
End ExactLoops.

(** ** The enumeration of parent states *)

Lemma elem_of_range x n : x ∈ range n <-> 0 <= x < n.
Proof.
  unfold range. rewrite list_elem_of_fmap. split.
  - intros [i [-> Hi]]. apply elem_of_seq in Hi. lia.
  - intros Hx. exists (Z.to_nat x). split; [lia|]. apply elem_of_seq. lia.
Qed.

Lemma range_app a b :
  0 <= a -> 0 <= b -> range (a + b) = range a ++ map (Z.add a) (range b).
Proof.
  intros Ha Hb. unfold range.
  rewrite Z2Nat.inj_add by assumption. rewrite seq_app, map_app. f_equal.
  replace (0 + Z.to_nat a)%nat with (Z.to_nat a + 0)%nat by lia.
  rewrite <- fmap_add_seq. change (fmap ?f ?l) with (map f l).
  rewrite !map_map. apply map_ext. intros i. lia.
Qed.

Lemma bool_of_int_land i j :
  0 <= j -> bool_of_int (Z.land i (Z.shiftl 1 j)) = Z.testbit i j.
Proof.
  intros Hj. unfold bool_of_int. rewrite Z.shiftl_1_l.
  destruct (Z.testbit i j) eqn:Hbit.
  - apply negb_true_iff, Z.eqb_neq. intros Hz.
    assert (Hb : Z.testbit (Z.land i (2 ^ j)) j = true).
    { rewrite Z.land_spec, Hbit, Z.pow2_bits_true by assumption. reflexivity. }
    rewrite Hz, Z.bits_0 in Hb. discriminate.
  - apply negb_false_iff, Z.eqb_eq. apply Z.bits_inj_0. intros n.
    rewrite Z.land_spec.
    destruct (Z.eq_dec n j) as [->|Hne]; [rewrite Hbit; reflexivity|].
    destruct (Z_lt_le_dec n 0) as [Hneg|Hpos].
    + rewrite (Z.testbit_neg_r i n) by assumption. reflexivity.
    + rewrite Z.pow2_bits_false by lia. apply andb_false_r.
Qed.

Lemma parent_states_of_testbit k i :
  parent_states_of (Z.of_nat k) i = map (fun j => Z.testbit i (Z.of_nat j)) (seq 0 k).
Proof.
  unfold parent_states_of, range. rewrite Nat2Z.id, map_map.
  apply map_ext. intros j. apply bool_of_int_land. lia.
Qed.

Lemma parent_states_of_length k i : length (parent_states_of (Z.of_nat k) i) = k.
Proof. rewrite parent_states_of_testbit, length_map, length_seq. reflexivity. Qed.

Lemma parent_states_of_succ k i :
  parent_states_of (Z.of_nat (S k)) i =
  parent_states_of (Z.of_nat k) i ++ [Z.testbit i (Z.of_nat k)].
Proof.
  rewrite !parent_states_of_testbit. rewrite seq_S, map_app. reflexivity.
Qed.

Lemma parent_states_of_low k i :
  0 <= i < 2 ^ Z.of_nat k ->
  parent_states_of (Z.of_nat (S k)) i = parent_states_of (Z.of_nat k) i ++ [false].
Proof.
  intros Hi. rewrite parent_states_of_succ. do 2 f_equal.
  apply Z.testbit_false; [lia|]. rewrite Z.div_small by lia. reflexivity.
Qed.

Lemma parent_states_of_high k i :
  0 <= i < 2 ^ Z.of_nat k ->
  parent_states_of (Z.of_nat (S k)) (2 ^ Z.of_nat k + i) =
  parent_states_of (Z.of_nat k) i ++ [true].
Proof.
  intros Hi. rewrite parent_states_of_succ. f_equal.
  - rewrite !parent_states_of_testbit. apply map_ext_in. intros j Hj.
    apply in_seq in Hj.
    rewrite <- (Z.mod_pow2_bits_low (2 ^ Z.of_nat k + i) (Z.of_nat k)) by lia.
    f_equal. rewrite <- Zplus_mod_idemp_l, Z.mod_same by lia.
    simpl. apply Z.mod_small. lia.
  - f_equal. apply Z.testbit_true; [lia|].
    replace (2 ^ Z.of_nat k + i) with (1 * 2 ^ Z.of_nat k + i) by lia.
    rewrite Z.div_add_l by lia. rewrite (Z.div_small i) by lia. reflexivity.
Qed.

Lemma enumeration_succ k :
  enumeration (S k) =
  map (fun s => s ++ [false]) (enumeration k) ++
  map (fun s => s ++ [true]) (enumeration k).
Proof.
  unfold enumeration.
  assert (Hpow : 2 ^ Z.of_nat (S k) = 2 ^ Z.of_nat k + 2 ^ Z.of_nat k).
  { rewrite Nat2Z.inj_succ, Z.pow_succ_r by lia. lia. }
  assert (Hpos : 0 < 2 ^ Z.of_nat k) by (apply Z.pow_pos_nonneg; lia).
  rewrite Hpow, range_app, map_app by lia. rewrite !map_map. f_equal.
  - apply map_ext_in. intros i Hi. apply list_elem_of_In, elem_of_range in Hi.
    apply parent_states_of_low. exact Hi.
  - apply map_ext_in. intros i Hi. apply list_elem_of_In, elem_of_range in Hi.
    apply parent_states_of_high. exact Hi.
Qed.

Lemma enumeration_length k s : s ∈ enumeration k -> length s = k.
Proof.
  unfold enumeration. intros Hs. apply list_elem_of_fmap in Hs as [i [-> _]].
  apply parent_states_of_length.
Qed.

Lemma enumeration_complete k s : length s = k -> s ∈ enumeration k.
Proof.
  revert s. induction k as [|k IH]; intros s Hlen.
  - destruct s; [|discriminate]. vm_compute. left.
  - destruct (decide (s = [])) as [->|Hne]; [discriminate|].
    destruct (exists_last (l:=s)) as [s' [b ->]]; [exact Hne|].
    rewrite length_app in Hlen. simpl in Hlen.
    rewrite enumeration_succ, elem_of_app.
    assert (Hs' : s' ∈ enumeration k) by (apply IH; lia).
    destruct b; [right|left];
      change (map ?f ?l) with (fmap f l); apply list_elem_of_fmap; eauto.
Qed.

Lemma enumeration_NoDup k : NoDup (enumeration k).
Proof.
  induction k as [|k IH]; [vm_compute; repeat constructor; set_solver|].
  rewrite enumeration_succ. apply NoDup_app. split; [|split].
  - apply (NoDup_fmap_2 (fun s => s ++ [false])), IH.
  - intros s Hf Ht.
    apply list_elem_of_fmap in Hf as [s1 [-> _]].
    apply list_elem_of_fmap in Ht as [s2 [Heq _]].
    apply app_inj_tail in Heq as [_ ?]. discriminate.
  - apply (NoDup_fmap_2 (fun s => s ++ [true])), IH.
Qed.

(** Any list of all the combinations, without repetition, is a
    rearrangement of the order the loop uses. *)
Lemma enumeration_Permutation k (combos : list (list bool)) :
  NoDup combos -> (forall s, s ∈ combos <-> length s = k) ->
  combos ≡ₚ enumeration k.
Proof.
  intros Hnd Hall. apply NoDup_Permutation; [exact Hnd|apply enumeration_NoDup|].
  intros s. rewrite Hall. split; [apply enumeration_complete|apply enumeration_length].
Qed.

(** The weights of all the combinations add up to one. *)
Lemma weight_total P ps :
  (Qsum (map (weight P ps) (enumeration (length ps))) == 1)%Q.
Proof.
  induction ps as [|p ps IH] using rev_ind; [vm_compute; reflexivity|].
  rewrite length_app. simpl. rewrite Nat.add_1_r, enumeration_succ.
  rewrite map_app, Qsum_app, !map_map.
  rewrite (Qsum_ext _ (fun s => weight P ps s * (1 - P p))%Q).
  2:{ intros s Hs. apply enumeration_length in Hs. rewrite weight_snoc by lia. reflexivity. }
  rewrite (Qsum_ext (fun s => weight P (ps ++ [p]) (s ++ [true]))
                    (fun s => weight P ps s * P p)%Q).
  2:{ intros s Hs. apply enumeration_length in Hs. rewrite weight_snoc by lia. reflexivity. }
  rewrite !Qsum_scale, IH. lra.
Qed.

(** ** Soundness of the executable checks *)

Lemma dict_get_elem_of {V} (d : dict V) k v : dict_get d k = Some v -> (k, v) ∈ d.
Proof.
  induction d as [|[k' v'] d IH]; simpl; [discriminate|].
  destruct (String.eqb_spec k' k) as [->|Hne]; intros Hg.
  - injection Hg as ->. left.
  - right. auto.
Qed.

Lemma position_lt_registered {V} (d : dict V) f :
  (position d f < length d)%nat -> is_Some (dict_get d f).
Proof.
  induction d as [|[k v] d IH]; simpl; [lia|].
  destruct (String.eqb k f); [eauto|]. intros Hlt. apply IH. lia.
Qed.

Lemma position_le {V} (d : dict V) f : (position d f <= length d)%nat.
Proof.
  induction d as [|[k v] d IH]; simpl; [lia|]. destruct (String.eqb k f); lia.
Qed.

Section Ordered.
Context {num : Type} (self : BayesianNetworkModel num).
Hypothesis Hord : topologically_ordered (risk_structure (ontology self)) = true.

Lemma ordered_parent f p :
  parent_of self f p ->
  (position (risk_structure (ontology self)) p
   < position (risk_structure (ontology self)) f)%nat.
Proof.
  intros [risk [Hg Hp]]. unfold topologically_ordered in Hord.
  rewrite forallb_forall in Hord.
  specialize (Hord (f, risk)). simpl in Hord.
  rewrite forallb_forall in Hord.
  apply Nat.ltb_lt, Hord.
  - apply list_elem_of_In, dict_get_elem_of, Hg.
  - apply list_elem_of_In, Hp.
Qed.

Lemma topologically_ordered_closed : closed self.
Proof.
  intros f p Hlink. apply position_lt_registered.
  pose proof (ordered_parent f p Hlink).
  pose proof (position_le (risk_structure (ontology self)) f). lia.
Qed.

Lemma topologically_ordered_acyclic : acyclic self.
Proof.
  assert (Hdec : forall f g, tc (parent_of self) f g ->
            (position (risk_structure (ontology self)) g
             < position (risk_structure (ontology self)) f)%nat).
  { induction 1 as [f g Hfg|f g h Hfg _ IH].
    - apply ordered_parent, Hfg.
    - pose proof (ordered_parent f g Hfg). lia. }
  intros f Hcyc. specialize (Hdec f f Hcyc). lia.
Qed.
End Ordered.

Lemma in_unitb_sound x : in_unitb x = true -> in_unit x.
Proof.
  unfold in_unitb, in_unit. intros Hb. apply andb_true_iff in Hb as [H0 H1].
  apply Qle_bool_iff in H0, H1. auto.
Qed.

Lemma roots_in_unitb_sound self : roots_in_unitb self = true -> roots_in_unit self.
Proof.
  unfold roots_in_unitb. rewrite forallb_forall. intros Hall f risk Hg Hroot.
  specialize (Hall (f, risk)). simpl in Hall. rewrite Hroot in Hall.
  apply in_unitb_sound, Hall, list_elem_of_In, dict_get_elem_of, Hg.
Qed.

Lemma cpt_in_unitb_sound self : cpt_in_unitb self = true -> cpt_in_unit self.
Proof.
  unfold cpt_in_unitb. rewrite forallb_forall. intros Hall f table states c Hf Hc.
  specialize (Hall (f, table)). simpl in Hall. rewrite forallb_forall in Hall.
  apply in_unitb_sound.
  apply (Hall ltac:(apply list_elem_of_In, elem_of_map_to_list, Hf) (states, c)).
  apply list_elem_of_In, elem_of_map_to_list, Hc.
Qed.

Lemma computableb_sound {num} `{Float num} (self : BayesianNetworkModel num) depth :
  computableb self depth = true -> computable self depth.
Proof.
  unfold computableb. rewrite forallb_forall. intros Hall f Hf.
  specialize (Hall f ltac:(apply list_elem_of_In, Hf)).
  destruct (calculate_probability self depth f); [eauto|discriminate].
Qed.

(** ** The marginal of a CPT-backed factor *)

Lemma cpt_marginal (self : BayesianNetworkModel Q) (fuel : nat) (factor : string)
    (risk : RiskFactor Q) (table : gmap (list bool) Q) (P : string -> Q)
    (combos : list (list bool)) :
  dict_get (risk_structure (ontology self)) factor = Some risk ->
  parents risk <> [] ->
  evidence self !! factor = None ->
  cpt self !! factor = Some table ->
  (forall p, p ∈ parents risk -> calculate_probability self fuel p = Ok (P p)) ->
  NoDup combos ->
  (forall states, states ∈ combos <-> length states = length (parents risk)) ->
  exists v, calculate_probability self (S fuel) factor = Ok v /\
    (v == Qsum (map (fun states =>
                       weight P (parents risk) states * entry_or_zero table states)
                    combos))%Q.
Proof.
  intros Hg Hinner Hev Hcpt HP Hnd Hall.
  erewrite calculate_probability_inner by eassumption.
  rewrite (mapM_all_Ok _ P) by exact HP. simpl. rewrite Hcpt.
  destruct (marginalise_exact _ P (parents risk) table HP) as [v [Hv Heq]].
  exists v. split; [exact Hv|]. rewrite Heq. apply Qsum_Permutation.
  change (map ?f ?l) with (fmap f l). apply fmap_Permutation.
  symmetry. apply enumeration_Permutation; assumption.
Qed.

Lemma all_pairs_complete (states : list bool) :
  states ∈ all_pairs <-> length states = 2%nat.
Proof.
  unfold all_pairs. split.
  - intros Hin. repeat (apply elem_of_cons in Hin as [->|Hin]; [reflexivity|]).
    inversion Hin.
  - destruct states as [|[] [|[] [|? ?]]]; simpl; intros Hl; try discriminate;
      repeat first [left | right].
Qed.

Lemma all_pairs_NoDup : NoDup all_pairs.
Proof. refine (bool_decide_unpack _ _). reflexivity. Qed.

Lemma two_parent_marginal (self : BayesianNetworkModel Q) (fuel : nat) (factor : string)
    (risk : RiskFactor Q) (a b : string) (pa pb : Q) :
  dict_get (risk_structure (ontology self)) factor = Some risk ->
  parents risk = [a; b] ->
  evidence self !! factor = None ->
  cpt self !! factor = Some (cpt_table 0.85 0.60 0.55 0.10) ->
  calculate_probability self fuel a = Ok pa -> (pa == 0.30)%Q ->
  calculate_probability self fuel b = Ok pb -> (pb == 0.25)%Q ->
  exists v, calculate_probability self (S fuel) factor = Ok v /\
            (Qabs (v - 0.3475) <= 1e-9)%Q.
Proof.
  intros Hg Hps Hev Hcpt Ha Hpa Hb Hpb.
  set (P := fun p => match calculate_probability self fuel p with
                     | Ok v => v | Raise _ => 0%Q end).
  destruct (cpt_marginal self fuel factor risk (cpt_table 0.85 0.60 0.55 0.10) P all_pairs Hg)
    as [v [Hv Heq]];
    try assumption.
  - rewrite Hps. discriminate.
  - intros p Hp. rewrite Hps in Hp. unfold P.
    apply elem_of_cons in Hp as [->|Hp]; [rewrite Ha; reflexivity|].
    apply elem_of_cons in Hp as [->|Hp]; [rewrite Hb; reflexivity|inversion Hp].
  - apply all_pairs_NoDup.
  - intros states. rewrite Hps. apply all_pairs_complete.
  - exists v. split; [exact Hv|].
    assert (HPa : (P a == 0.30)%Q) by (unfold P; rewrite Ha; exact Hpa).
    assert (HPb : (P b == 0.25)%Q) by (unfold P; rewrite Hb; exact Hpb).
    assert (Hval : (v == 0.3475)%Q).
    { rewrite Heq, Hps. unfold all_pairs. cbn [map weight Qsum fold_right].
      change (entry_or_zero (cpt_table 0.85 0.60 0.55 0.10) [true; true]) with 0.85%Q.
      change (entry_or_zero (cpt_table 0.85 0.60 0.55 0.10) [true; false]) with 0.60%Q.
      change (entry_or_zero (cpt_table 0.85 0.60 0.55 0.10) [false; true]) with 0.55%Q.
      change (entry_or_zero (cpt_table 0.85 0.60 0.55 0.10) [false; false]) with 0.10%Q.
      rewrite HPa, HPb. reflexivity. }
    rewrite Hval. vm_compute. discriminate.
Qed.

(** ** Every computed probability is a probability *)

Lemma entry_or_zero_in_unit (table : gmap (list bool) Q) states :
  (forall s c, table !! s = Some c -> in_unit c) ->
  in_unit (entry_or_zero table states).
Proof.
  intros Ht. unfold entry_or_zero.
  destruct (table !! states) as [c|] eqn:Hc; [eapply Ht, Hc|split; lra].
Qed.

Lemma weighted_sum_in_unit (P : string -> Q) (ps : list string) (table : gmap (list bool) Q) :
  (forall p, p ∈ ps -> in_unit (P p)) ->
  (forall s c, table !! s = Some c -> in_unit c) ->
  in_unit (Qsum (map (fun states => (weight P ps states * entry_or_zero table states)%Q)
                     (enumeration (length ps)))).
Proof.
  intros HP Ht.
  destruct (Qsum_bounds
              (fun states => weight P ps states * entry_or_zero table states)%Q
              (weight P ps) (enumeration (length ps))) as [Hlo Hhi].
  - intros s _.
    pose proof (weight_nonneg P ps s HP).
    destruct (entry_or_zero_in_unit table s Ht). split; nra.
  - rewrite weight_total in Hhi. split; assumption.
Qed.

Lemma observed_in_unit b : in_unit (observed b).
Proof. destruct b; split; simpl; lra. Qed.

Lemma calculate_probability_in_unit (self : BayesianNetworkModel Q) fuel :
  roots_in_unit self -> cpt_in_unit self ->
  forall factor v, calculate_probability self fuel factor = Ok v -> in_unit v.
Proof.
  intros Hroots Hcpt. induction fuel as [|fuel IH]; intros factor v Hv; [discriminate|].
  destruct (dict_get (risk_structure (ontology self)) factor) as [risk|] eqn:Hg.
  2:{ rewrite calculate_probability_unregistered in Hv by assumption. discriminate. }
  destruct (evidence self !! factor) as [b|] eqn:Hev.
  { rewrite (calculate_probability_observed self fuel factor risk b Hg Hev) in Hv.
    injection Hv as <-. apply (observed_in_unit b). }
  destruct (decide (parents risk = [])) as [Hroot|Hinner].
  { rewrite (calculate_probability_root self fuel factor risk Hg Hroot Hev) in Hv.
    injection Hv as <-. eapply Hroots; eassumption. }
  rewrite (calculate_probability_inner self fuel factor risk Hg Hinner Hev) in Hv.
  destruct (mapM (calculate_probability self fuel) (parents risk)) as [pps|e] eqn:Hm;
    [|discriminate].
  simpl in Hv.
  destruct (cpt self !! factor) as [table|] eqn:Htable.
  - set (P := fun p => match calculate_probability self fuel p with
                       | Ok v => v | Raise _ => 0%Q end).
    assert (HP : forall p, p ∈ parents risk ->
                   calculate_probability self fuel p = Ok (P p)).
    { intros p Hp. unfold P.
      destruct (mapM_Ok_elem _ _ _ p Hm Hp) as [y ->]. reflexivity. }
    destruct (marginalise_exact _ P (parents risk) table HP) as [v' [Hv' Heq]].
    rewrite Hv' in Hv. injection Hv as <-.
    unfold in_unit. rewrite Heq.
    apply weighted_sum_in_unit.
    + intros p Hp. eapply IH, HP, Hp.
    + intros s c. apply (Hcpt factor table s c Htable).
  - injection Hv as <-.
    assert (Hpps : Forall in_unit pps).
    { apply Forall_forall. intros y Hy.
      destruct (mapM_Ok_value _ _ _ y Hm Hy) as [p [_ Hp]]. eapply IH, Hp. }
    assert (Hprod : in_unit (np_prod (map (fun p => f1 - p)%num pps))).
    { unfold np_prod. apply np_prod_in_unit; [split; simpl; lra|].
      apply Forall_map. eapply Forall_impl; [exact Hpps|].
      intros y [? ?]. exact_arith. split; lra. }
    destruct Hprod. exact_arith. split; lra.
Qed.

(** ** The simulator, for any float arithmetic *)

Section Simulator.
Context {num : Type} `{Float num}.
Variables (random : nat -> num) (depth : nat).
Implicit Types (self : MonteCarloSimulator num) (w : World num)
               (bm : BayesianNetworkModel num).

Lemma sample_factor_eq (st : gmap string bool) f w :
  sample_factor random depth st f w =
    match calculate_probability (bayesian_model w) depth f with
    | Ok prob =>
      (Ok (<[ f := (random (drawn w) <? prob)%num ]> st),
       {| bayesian_model := bayesian_model w; drawn := S (drawn w) |})
    | Raise e => (Raise e, w)
    end.
Proof.
  unfold sample_factor, bindM, get_model, lift, np_random, ret.
  destruct (calculate_probability (bayesian_model w) depth f); reflexivity.
Qed.

(** The sampling loop. *)
Lemma sample_loop (l : list string) (st : gmap string bool) w :
  (forall f, f ∈ l -> exists v, calculate_probability (bayesian_model w) depth f = Ok v) ->
  exists st' w',
    forM (sample_factor random depth) l st w = (Ok st', w')
    /\ bayesian_model w' = bayesian_model w
    /\ (forall f, f ∈ l -> is_Some (st' !! f))
    /\ (forall f, is_Some (st !! f) -> is_Some (st' !! f))
    /\ (forall f (b : bool), st' !! f = Some b ->
          st !! f = Some b
          \/ (f ∈ l /\ exists i prob,
                calculate_probability (bayesian_model w) depth f = Ok prob
                /\ b = (random i <? prob)%num)).
Proof.
  revert st w. induction l as [|f l IH]; intros st w Hok.
  - exists st, w. simpl. unfold ret. repeat split; auto. intros g Hg. inversion Hg.
  - destruct (Hok f) as [prob Hprob]; [left|].
    simpl. unfold bindM at 1. rewrite sample_factor_eq, Hprob.
    set (w1 := {| bayesian_model := bayesian_model w; drawn := S (drawn w) |}).
    destruct (IH (<[ f := (random (drawn w) <? prob)%num ]> st) w1)
      as [st' [w' [Hrun [Hbm [Hall [Hkeep Horigin]]]]]].
    { intros g Hg. apply Hok. right. exact Hg. }
    exists st', w'. split; [exact Hrun|]. split; [exact Hbm|]. split; [|split].
    + intros g Hg. apply elem_of_cons in Hg as [->|Hg]; [|auto].
      apply Hkeep. rewrite lookup_insert_eq. eauto.
    + intros g Hg. apply Hkeep.
      destruct (decide (f = g)) as [->|Hne];
        [rewrite lookup_insert_eq; eauto|rewrite lookup_insert_ne by done; exact Hg].
    + intros g b Hb. destruct (Horigin g b Hb) as [Hst|[Hin Hex]].
      * destruct (decide (f = g)) as [->|Hne].
        -- rewrite lookup_insert_eq in Hst. injection Hst as <-.
           right. split; [left|]. eauto.
        -- rewrite lookup_insert_ne in Hst by done. left. exact Hst.
      * right. split; [right; exact Hin|exact Hex].
Qed.

Lemma sample_loop_frame (l : list string) (st : gmap string bool) w :
  bayesian_model (snd (forM (sample_factor random depth) l st w)) = bayesian_model w.
Proof.
  revert st w. induction l as [|f l IH]; intros st w; [reflexivity|].
  simpl. unfold bindM at 1. rewrite sample_factor_eq.
  destruct (calculate_probability (bayesian_model w) depth f); [|reflexivity].
  rewrite IH. reflexivity.
Qed.

Lemma iteration_frame self w :
  bayesian_model (snd (iteration random depth self w)) = bayesian_model w.
Proof.
  unfold iteration, bindM, get_model, ret.
  pose proof (sample_loop_frame
                (keys (risk_structure (ontology (bayesian_model w)))) ∅ w) as Hf.
  destruct (forM _ _ _ w) as [[st|e] w']; exact Hf.
Qed.

Lemma iteration_Ok self w :
  computable (bayesian_model w) depth ->
  exists row w',
    iteration random depth self w = (Ok row, w')
    /\ bayesian_model w' = bayesian_model w
    /\ is_sample random depth self (bayesian_model w) row.
Proof.
  intros Hcomp. unfold iteration, bindM, get_model, ret.
  destruct (sample_loop (keys (risk_structure (ontology (bayesian_model w)))) ∅ w Hcomp)
    as [st [w' [Hrun [Hbm [Hall [_ Horigin]]]]]].
  rewrite Hrun. exists (cost_row self st), w'. split; [reflexivity|]. split; [exact Hbm|].
  exists st. split; [reflexivity|]. split; [exact Hall|].
  intros f b Hb. destruct (Horigin f b Hb) as [Hempty|[Hin Hex]].
  - rewrite lookup_empty in Hempty. discriminate.
  - auto.
Qed.

(** The loop over the iterations. *)
Lemma run_loop_frame self (l : list Z) (results : DataFrame num) w :
  bayesian_model
    (snd (forM (fun results _ => row <~ iteration random depth self ;;
                                 ret (results ++ [row])) l results w))
  = bayesian_model w.
Proof.
  revert results w. induction l as [|i l IH]; intros results w; [reflexivity|].
  simpl. unfold bindM at 1 2.
  pose proof (iteration_frame self w) as Hf.
  destruct (iteration random depth self w) as [[row|e] w1]; simpl in Hf |- *.
  - unfold ret at 1. rewrite IH. exact Hf.
  - exact Hf.
Qed.

Lemma run_simulation_frame self n w :
  bayesian_model (snd (run_simulation random depth self n w)) = bayesian_model w.
Proof. apply run_loop_frame. Qed.

Lemma run_loop_Ok self (l : list Z) (results : DataFrame num) w :
  computable (bayesian_model w) depth ->
  exists rows w',
    forM (fun results _ => row <~ iteration random depth self ;;
                           ret (results ++ [row])) l results w
      = (Ok (results ++ rows), w')
    /\ bayesian_model w' = bayesian_model w
    /\ length rows = length l
    /\ Forall (is_sample random depth self (bayesian_model w)) rows.
Proof.
  revert results w. induction l as [|i l IH]; intros results w Hcomp.
  - exists [], w. simpl. unfold ret. rewrite app_nil_r. repeat split; constructor.
  - destruct (iteration_Ok self w Hcomp) as [row [w1 [Hit [Hbm1 Hrow]]]].
    simpl. unfold bindM at 1 2. rewrite Hit. unfold ret at 1.
    destruct (IH (results ++ [row]) w1) as [rows [w' [Hrun [Hbm [Hlen Hrows]]]]].
    { rewrite Hbm1. exact Hcomp. }
    exists (row :: rows), w'. rewrite Hrun, <- app_assoc. simpl.
    split; [reflexivity|]. split; [congruence|]. split; [lia|].
    constructor; [exact Hrow|]. rewrite <- Hbm1. exact Hrows.
Qed.

Lemma run_simulation_Ok self n w :
  computable (bayesian_model w) depth ->
  exists rows w',
    run_simulation random depth self n w = (Ok rows, w')
    /\ bayesian_model w' = bayesian_model w
    /\ length rows = Z.to_nat n
    /\ Forall (is_sample random depth self (bayesian_model w)) rows.
Proof.
  intros Hcomp. unfold run_simulation.
  destruct (run_loop_Ok self (range n) [] w Hcomp) as [rows [w' [Hrun [Hbm [Hlen Hrows]]]]].
  exists rows, w'. rewrite range_length in Hlen. auto.
Qed.

Lemma run_simulation_nonpositive self n w :
  n <= 0 -> run_simulation random depth self n w = (Ok [], w).
Proof. intros Hn. unfold run_simulation. rewrite range_nonpositive by done. reflexivity. Qed.
End Simulator.

(** ** Rows of the result frame *)

Section Rows.
Context {num : Type} `{Float num}.
Implicit Types (self : MonteCarloSimulator num) (st : gmap string bool).

Lemma cost_row_unfold self st :
  cost_row self st =
    (VBool <$> st) ∪
    <[ "total"%string :=
         VFloat (fst (fold_left (add_cost st) (cost_impacts (sim_ontology self))
                        (sim_base_cost self,
                         {[ "base"%string := VFloat (sim_base_cost self) ]}))) ]>
      (snd (fold_left (add_cost st) (cost_impacts (sim_ontology self))
              (sim_base_cost self,
               {[ "base"%string := VFloat (sim_base_cost self) ]}))).
Proof. unfold cost_row. destruct (fold_left _ _ _) as [t cb]. reflexivity. Qed.

(** An occurrence flag overwrites whatever the cost part stored under
    the same key. *)
Lemma cost_row_flag self st f (b : bool) :
  st !! f = Some b -> cost_row self st !! f = Some (VBool b).
Proof.
  intros Hf. rewrite cost_row_unfold. apply lookup_union_Some_l.
  rewrite lookup_fmap, Hf. reflexivity.
Qed.

Lemma cost_row_total self st :
  st !! "total"%string = None ->
  cost_row self st !! "total"%string =
    Some (VFloat (fst (fold_left (add_cost st) (cost_impacts (sim_ontology self))
                         (sim_base_cost self,
                          {[ "base"%string := VFloat (sim_base_cost self) ]})))).
Proof.
  intros Hf. rewrite cost_row_unfold, lookup_union_r.
  - apply lookup_insert_eq.
  - rewrite lookup_fmap, Hf. reflexivity.
Qed.

(** The cost part of a row holds costs only. *)
Lemma add_cost_floats st (impacts : dict (CostImpact num)) t (cb : gmap string (value num)) :
  (forall k v, cb !! k = Some v -> exists x, v = VFloat x) ->
  forall k v, snd (fold_left (add_cost st) impacts (t, cb)) !! k = Some v ->
              exists x, v = VFloat x.
Proof.
  revert t cb. induction impacts as [|[f impact] impacts IH]; intros t cb Hcb; [exact Hcb|].
  simpl. destruct (st !! f) as [[|]|]; apply IH; intros k v;
    (destruct (decide (f = k)) as [->|Hne];
     [rewrite lookup_insert_eq; intros [= <-]; eauto
     |rewrite lookup_insert_ne by done; apply Hcb]).
Qed.

Lemma cost_row_flag_inv self st f :
  cost_row self st !! f = Some (VBool true) -> st !! f = Some true.
Proof.
  rewrite cost_row_unfold. intros Hrow.
  apply lookup_union_Some_raw in Hrow as [Hl|[_ Hr]].
  - rewrite lookup_fmap in Hl. destruct (st !! f) as [b|]; [|discriminate].
    simpl in Hl. congruence.
  - exfalso. destruct (decide ("total"%string = f)) as [<-|Hne].
    + rewrite lookup_insert_eq in Hr. discriminate.
    + rewrite lookup_insert_ne in Hr by done.
      apply add_cost_floats in Hr as [x Hx]; [discriminate|].
      intros k v Hk. apply lookup_singleton_Some in Hk as [_ <-]. eauto.
Qed.

(** A sample carries its total cost unless a factor is registered under
    the key of the total. *)
Lemma sample_float_total (random : nat -> num) (depth : nat) self
    (bm : BayesianNetworkModel num) (row : gmap string (value num)) :
  "total"%string ∉ keys (risk_structure (ontology bm)) ->
  is_sample random depth self bm row ->
  exists total, row !! "total"%string = Some (VFloat total).
Proof.
  intros Hfree [st [-> [_ Horigin]]].
  assert (Hst : st !! "total"%string = None).
  { destruct (st !! "total"%string) as [b|] eqn:Hb; [|reflexivity].
    destruct (Horigin _ b Hb) as [Hin _]. contradiction. }
  eexists. apply cost_row_total, Hst.
Qed.
End Rows.

(** ** The budget statistics *)

Section Analysis.
Context {num : Type} `{Float num}.

Lemma column_Ok (results : DataFrame num) key row :
  row ∈ results -> is_Some (row !! key) ->
  column results key = Ok (map (fun row => row !! key) results).
Proof.
  intros Hin Hkey. unfold column.
  replace (existsb _ results) with true; [reflexivity|].
  symmetry. apply existsb_exists. exists row. split; [apply list_elem_of_In, Hin|].
  apply bool_decide_eq_true, Hkey.
Qed.

Lemma analyze_results_Ok (self : MonteCarloSimulator num) (results : DataFrame num) :
  float_totals results -> exists analysis, analyze_results self results = Ok analysis.
Proof.
  intros [Hne Hrows]. destruct results as [|row rows]; [congruence|].
  destruct (Hrows row) as [total Htotal]; [left|].
  unfold analyze_results.
  rewrite (column_Ok (row :: rows) "total" row); [simpl; eauto|left|].
  rewrite Htotal. eauto.
Qed.
End Analysis.

(** ** The decision support system, for any float arithmetic *)

Section System.
Context {num : Type} `{Float num}.
Variables (random : nat -> num) (depth : nat).
Implicit Types (self : DecisionSupportSystem num) (w : World num)
               (bm : BayesianNetworkModel num).

Lemma with_events_ontology bm events : ontology (with_events bm events) = ontology bm.
Proof.
  unfold with_events. revert bm.
  induction events as [|[f o] events IH]; intros bm; [reflexivity|].
  simpl. rewrite IH. reflexivity.
Qed.

Lemma apply_events_eq events w :
  apply_events events w =
    (Ok tt, {| bayesian_model := with_events (bayesian_model w) events;
               drawn := drawn w |}).
Proof.
  unfold apply_events. generalize tt at 1. revert w.
  induction events as [|[f o] events IH]; intros [bm d] u.
  - destruct u. reflexivity.
  - simpl. unfold bindM at 1, set_evidenceM, bindM, get_model, put_model. simpl.
    rewrite IH. reflexivity.
Qed.

Lemma analyze_current_risk_frame self w :
  snd (analyze_current_risk depth self w) = w.
Proof.
  unfold analyze_current_risk, bindM, get_model, lift, ret.
  destruct (get_all_probabilities (bayesian_model w) depth); reflexivity.
Qed.

Lemma get_all_probabilities_Ok bm :
  computable bm depth -> exists probs, get_all_probabilities bm depth = Ok probs.
Proof.
  intros Hcomp. unfold get_all_probabilities.
  set (P := fun f => match calculate_probability bm depth f with
                     | Ok v => v | Raise _ => f0 end).
  rewrite (mapM_all_Ok _ (fun f => (f, P f))); [eauto|].
  intros f Hf. destruct (Hcomp f Hf) as [v Hv]. unfold P. rewrite Hv. reflexivity.
Qed.

Lemma analyze_current_risk_Ok self w :
  computable (bayesian_model w) depth ->
  analyze_current_risk depth self w = (Ok tt, w).
Proof.
  intros Hcomp. unfold analyze_current_risk, bindM, get_model, lift, ret.
  destruct (get_all_probabilities_Ok _ Hcomp) as [probs ->]. reflexivity.
Qed.

Lemma run_cost_simulation_frame self n w :
  bayesian_model (snd (run_cost_simulation random depth self n w)) = bayesian_model w.
Proof.
  unfold run_cost_simulation, bindM, lift, ret.
  pose proof (run_simulation_frame random depth (simulator self) n w) as Hf.
  destruct (run_simulation random depth (simulator self) n w) as [[rows|e] w1];
    simpl in Hf |- *; [|exact Hf].
  destruct (analyze_results (simulator self) rows); exact Hf.
Qed.

Lemma run_cost_simulation_Ok self n w :
  0 < n ->
  "total"%string ∉ keys (risk_structure (ontology (bayesian_model w))) ->
  computable (bayesian_model w) depth ->
  exists ra w', run_cost_simulation random depth self n w = (Ok ra, w')
                /\ bayesian_model w' = bayesian_model w.
Proof.
  intros Hn Hfree Hcomp. unfold run_cost_simulation, bindM, lift, ret.
  destruct (run_simulation_Ok random depth (simulator self) n w Hcomp)
    as [rows [w' [Hrun [Hbm [Hlen Hrows]]]]].
  rewrite Hrun.
  destruct (analyze_results_Ok (simulator self) rows) as [analysis ->]; [|eauto].
  split.
  - intros ->. simpl in Hlen. lia.
  - intros row Hrow. rewrite Forall_forall in Hrows.
    eapply sample_float_total; [exact Hfree|apply Hrows, Hrow].
Qed.

(** The exits of [what_if_analysis]. *)
Lemma what_if_analysis_exits self events w :
  match what_if_analysis random depth self events w with
  | (Ok _, w') =>
    evidence (bayesian_model w') = evidence (bayesian_model w)
  | (Raise _, w') =>
    evidence (bayesian_model w') =
    evidence (with_events (bayesian_model w) events)
  end.
Proof.
  unfold what_if_analysis. unfold bindM at 1, get_model at 1.
  unfold bindM at 1. rewrite apply_events_eq.
  set (w1 := {| bayesian_model := with_events (bayesian_model w) events;
                drawn := drawn w |}).
  unfold bindM at 1.
  pose proof (analyze_current_risk_frame self w1) as Ha.
  destruct (analyze_current_risk depth self w1) as [[[]|e] w2]; simpl in Ha; subst w2;
    [|reflexivity].
  unfold bindM at 1.
  pose proof (run_cost_simulation_frame self 5000 w1) as Hr.
  destruct (run_cost_simulation random depth self 5000 w1) as [[ra|e] w3]; simpl in Hr.
  - unfold bindM, get_model, put_model, ret. reflexivity.
  - rewrite Hr. reflexivity.
Qed.

Lemma what_if_analysis_Ok self events w :
  "total"%string ∉ keys (risk_structure (ontology (bayesian_model w))) ->
  computable (with_events (bayesian_model w) events) depth ->
  exists ra w', what_if_analysis random depth self events w = (Ok ra, w').
Proof.
  intros Hfree Hcomp. unfold what_if_analysis. unfold bindM at 1, get_model at 1.
  unfold bindM at 1. rewrite apply_events_eq.
  set (w1 := {| bayesian_model := with_events (bayesian_model w) events;
                drawn := drawn w |}).
  unfold bindM at 1. rewrite (analyze_current_risk_Ok self w1) by exact Hcomp.
  unfold bindM at 1.
  destruct (run_cost_simulation_Ok self 5000 w1) as [ra [w' [-> _]]];
    [lia|simpl; rewrite with_events_ontology; exact Hfree|exact Hcomp|].
  unfold bindM, get_model, put_model, ret. eauto.
Qed.
End System.

(** ** Costs in exact arithmetic *)

Lemma add_cost_total (st : gmap string bool) (impacts : dict (CostImpact Q))
    (t : Q) (cb : gmap string (value Q)) :
  (fst (fold_left (add_cost st) impacts (t, cb)) ==
   t + Qsum (map (fun item : string * CostImpact Q =>
                    match st !! fst item with
                    | Some true =>
                      base_cost (snd item) * multiplier_if_triggered (snd item)
                    | _ => 0
                    end) impacts))%Q.
Proof.
  revert t cb. induction impacts as [|[f impact] impacts IH]; intros t cb; simpl; [lra|].
  destruct (st !! f) as [[|]|]; rewrite IH; exact_arith; lra.
Qed.

Lemma triggered_costs_cost_row (self : MonteCarloSimulator Q) (st : gmap string bool)
    (impacts : dict (CostImpact Q)) :
  (triggered_costs impacts (cost_row self st) ==
   Qsum (map (fun item : string * CostImpact Q =>
                match st !! fst item with
                | Some true =>
                  base_cost (snd item) * multiplier_if_triggered (snd item)
                | _ => 0
                end) impacts))%Q.
Proof.
  unfold triggered_costs. apply Qsum_ext. intros [f impact] _. simpl.
  destruct (st !! f) as [b|] eqn:Hst.
  - rewrite (cost_row_flag self st f b Hst). destruct b; reflexivity.
  - destruct (cost_row self st !! f) as [[x|[|]]|] eqn:Hrow; try reflexivity.
    apply cost_row_flag_inv in Hrow. congruence.
Qed.

Lemma triggered_costs_nonneg (impacts : dict (CostImpact Q)) (row : gmap string (value Q)) :
  (forall f impact, (f, impact) ∈ impacts ->
     (0 < base_cost impact /\ 0 < multiplier_if_triggered impact)%Q) ->
  (0 <= triggered_costs impacts row)%Q.
Proof.
  intros Hpos. unfold triggered_costs.
  induction impacts as [|[f impact] impacts IH]; simpl; [lra|].
  assert (0 <= Qsum (map (fun item : string * CostImpact Q =>
               match row !! fst item with
               | Some (VBool true) =>
                 base_cost (snd item) * multiplier_if_triggered (snd item)
               | _ => 0
               end) impacts))%Q as Hrest.
  { apply IH. intros g i Hg. apply (Hpos g i). right. exact Hg. }
  destruct (Hpos f impact) as [Hb Hm]; [left|].
  destruct (row !! f) as [[x|[|]]|]; nra.
Qed.

(** The total cost of a sample, when no factor is registered under the
    key of the total. *)
Lemma sample_total_cost (random : nat -> Q) (depth : nat) (self : MonteCarloSimulator Q)
    (bm : BayesianNetworkModel Q) (row : gmap string (value Q)) :
  "total"%string ∉ keys (risk_structure (ontology bm)) ->
  is_sample random depth self bm row ->
  exists total, row !! "total"%string = Some (VFloat total)
    /\ (total == sim_base_cost self
                 + triggered_costs (cost_impacts (sim_ontology self)) row)%Q.
Proof.
  intros Hfree [st [-> [_ Horigin]]].
  assert (Hst : st !! "total"%string = None).
  { destruct (st !! "total"%string) as [b|] eqn:Hb; [|reflexivity].
    destruct (Horigin _ b Hb) as [Hin _]. contradiction. }
  eexists. split; [apply cost_row_total, Hst|].
  rewrite add_cost_total, triggered_costs_cost_row. reflexivity.
Qed.

(** ** The budget fractions in exact arithmetic *)

Lemma count_true_le {A} (g h : A -> bool) (l : list A) :
  (forall x, g x = true -> h x = true) ->
  (length (filter (fun b : bool => b = true) (map g l))
   <= length (filter (fun b : bool => b = true) (map h l)))%nat.
Proof.
  intros Himp. induction l as [|x l IH]; simpl; [lia|].
  rewrite !filter_cons.
  destruct (g x) eqn:Hg.
  - rewrite (Himp x Hg). repeat case_decide; try congruence. simpl. lia.
  - destruct (h x); repeat case_decide; try congruence; simpl; lia.
Qed.

Lemma mean_bool_le (flags flags' : list bool) :
  length flags = length flags' ->
  (length (filter (fun b : bool => b = true) flags)
   <= length (filter (fun b : bool => b = true) flags'))%nat ->
  (mean_bool flags <= mean_bool flags')%Q.
Proof.
  intros Hlen Hle. unfold mean_bool, len. rewrite Hlen. exact_arith.
  unfold Qdiv. apply Qmult_le_compat_r.
  - rewrite <- Zle_Qle. lia.
  - apply Qinv_le_0_compat. change 0%Q with (inject_Z 0). rewrite <- Zle_Qle. lia.
Qed.

Lemma exceeds_monotone (low high : Q) (cell : option (value Q)) :
  (low <= high)%Q -> exceeds high cell = true -> exceeds low cell = true.
Proof.
  intros Hle. unfold exceeds. exact_arith.
  assert (Hmono : forall x, negb (Qle_bool x high) = true -> negb (Qle_bool x low) = true).
  { intros x Hx. apply negb_true_iff in Hx. apply negb_true_iff.
    destruct (Qle_bool x low) eqn:Hlow; [|reflexivity].
    apply Qle_bool_iff in Hlow.
    assert (Hh : Qle_bool x high = true) by (apply Qle_bool_iff; lra). congruence. }
  destruct cell as [[x|b]|]; auto.
Qed.

Lemma analyze_results_budget (self : MonteCarloSimulator Q) (results : DataFrame Q)
    (row : gmap string (value Q)) :
  (0 <= sim_base_cost self)%Q ->
  row ∈ results -> is_Some (row !! "total"%string) ->
  exists analysis, analyze_results self results = Ok analysis
    /\ (prob_over_budget_20 analysis <= prob_over_budget analysis)%Q.
Proof.
  intros Hbase Hin Hkey. unfold analyze_results.
  rewrite (column_Ok results "total" row Hin Hkey). simpl.
  eexists. split; [reflexivity|]. simpl.
  apply mean_bool_le; [rewrite !length_map; reflexivity|].
  apply count_true_le. intros cell. apply exceeds_monotone.
  exact_arith. nra.
Qed.

Lemma closedb_sound {num} (self : BayesianNetworkModel num) :
  closedb (risk_structure (ontology self)) = true -> closed self.
Proof.
  unfold closedb. rewrite forallb_forall. intros Hall f p [risk [Hg Hp]].
  specialize (Hall (f, risk) ltac:(apply list_elem_of_In, dict_get_elem_of, Hg)).
  simpl in Hall. rewrite forallb_forall in Hall.
  specialize (Hall p ltac:(apply list_elem_of_In, Hp)).
  apply bool_decide_eq_true in Hall. exact Hall.
Qed.

(** * The claims *)

(** C1. A CPT-backed factor with parents, under no evidence and with
    computable parent marginals, has as probability the sum, over all the
    combinations of parent truth states, of the product of the parents'
    weights ([P parent] or [1 - P parent]) times the CPT entry of the
    combination, a missing entry counting as zero.  In particular a
    two-parent factor with parent marginals 0.30 and 0.25 and the CPT
    (T,T) 0.85, (T,F) 0.60, (F,T) 0.55, (F,F) 0.10 has probability 0.3475
    within 1e-9. *)
Theorem cpt_marginal_is_weighted_sum :
  (forall (self : BayesianNetworkModel Q) (fuel : nat) (factor : string)
          (risk : RiskFactor Q) (table : gmap (list bool) Q) (P : string -> Q)
          (combos : list (list bool)),
     dict_get (risk_structure (ontology self)) factor = Some risk ->
     parents risk <> [] ->
     evidence self !! factor = None ->
     cpt self !! factor = Some table ->
     (forall p, p ∈ parents risk -> calculate_probability self fuel p = Ok (P p)) ->
     NoDup combos ->
     (forall states, states ∈ combos <-> length states = length (parents risk)) ->
     exists v, calculate_probability self (S fuel) factor = Ok v /\
       (v == Qsum (map (fun states =>
                          weight P (parents risk) states * entry_or_zero table states)
                       combos))%Q)
  /\
  (forall (self : BayesianNetworkModel Q) (fuel : nat) (factor : string)
          (risk : RiskFactor Q) (a b : string) (pa pb : Q),
     dict_get (risk_structure (ontology self)) factor = Some risk ->
     parents risk = [a; b] ->
     evidence self !! factor = None ->
     cpt self !! factor = Some (cpt_table 0.85 0.60 0.55 0.10) ->
     calculate_probability self fuel a = Ok pa -> (pa == 0.30)%Q ->
     calculate_probability self fuel b = Ok pb -> (pb == 0.25)%Q ->
     exists v, calculate_probability self (S fuel) factor = Ok v /\
               (Qabs (v - 0.3475) <= 1e-9)%Q).
Proof.
  split.
  - intros. eapply cpt_marginal; eassumption.
  - intros. eapply two_parent_marginal; eassumption.
Qed.

Lemma cpt_marginal_block_delay :
  (exists v,
     calculate_probability (BayesianNetworkModel_init sample_ontology) 2 "block_delay" = Ok v
     /\ (v == 0.30 * (0.25 * 1) * 0.85 + (0.30 * ((1 - 0.25) * 1) * 0.60
               + ((1 - 0.30) * (0.25 * 1) * 0.55
                  + ((1 - 0.30) * ((1 - 0.25) * 1) * 0.10 + 0))))%Q)
  /\ (exists v,
        calculate_probability (BayesianNetworkModel_init sample_ontology) 2 "block_delay" = Ok v
        /\ (Qabs (v - 0.3475) <= 1e-9)%Q).
Proof.
  split.
  - refine (proj1 cpt_marginal_is_weighted_sum
              (BayesianNetworkModel_init sample_ontology) 1%nat "block_delay"
              {| name := "블록작업지연"; probability := 0.0%Q;
                 parents := ["material_delay"; "manpower_shortage"]%string |}
              (cpt_table 0.85 0.60 0.55 0.10)
              (fun p => if String.eqb p "material_delay" then 0.30%Q else 0.25%Q)
              all_pairs _ _ _ _ _ _ _);
      [reflexivity|discriminate|reflexivity|reflexivity|
      |exact all_pairs_NoDup|exact all_pairs_complete].
    intros p Hp.
    apply elem_of_cons in Hp as [->|Hp]; [reflexivity|].
    apply elem_of_cons in Hp as [->|Hp]; [reflexivity|inversion Hp].
  - refine (proj2 cpt_marginal_is_weighted_sum
              (BayesianNetworkModel_init sample_ontology) 1%nat "block_delay"
              _ "material_delay" "manpower_shortage" _ _ _ _ _ _ _ _ _ _);
      reflexivity.
Defined.

(** The same factor evaluated in binary64. *)
Example block_delay_binary64 :
  match calculate_probability
          (BayesianNetworkModel_init (sample_ontology (num := float))) 2 "block_delay" with
  | Ok v => PrimFloat.ltb (PrimFloat.abs (PrimFloat.sub v (literal 0.3475))) (literal 1e-9)
  | Raise _ => false
  end = true.
Proof. vm_compute. reflexivity. Qed.

(** C2. For a registered factor under evidence, [calculate_probability]
    returns exactly 1.0 when the evidence is true and exactly 0.0 when it
    is false, whatever its parents, base probability and CPT are; this
    holds for root factors and for factors with parents, in any float
    arithmetic. *)
Theorem evidence_overrides_probability {num : Type} `{Float num}
    (self : BayesianNetworkModel num) (fuel : nat) (factor : string)
    (risk : RiskFactor num) (occurred : bool) :
  dict_get (risk_structure (ontology self)) factor = Some risk ->
  evidence self !! factor = Some occurred ->
  calculate_probability self (S fuel) factor = Ok (if occurred then f1 else f0).
Proof.
  intros Hg Hev.
  rewrite (calculate_probability_observed self fuel factor risk occurred Hg Hev).
  reflexivity.
Qed.

Lemma evidence_overrides_sample_factors :
  calculate_probability
    (set_evidence (BayesianNetworkModel_init sample_ontology) "block_delay" true)
    1 "block_delay" = Ok 1%Q
  /\ calculate_probability
       (set_evidence (BayesianNetworkModel_init sample_ontology) "bad_weather" false)
       1 "bad_weather" = Ok 0%Q.
Proof.
  split.
  - refine (evidence_overrides_probability
              (set_evidence (BayesianNetworkModel_init sample_ontology) "block_delay" true)
              0 "block_delay" _ true _ _); reflexivity.
  - refine (evidence_overrides_probability
              (set_evidence (BayesianNetworkModel_init sample_ontology) "bad_weather" false)
              0 "bad_weather" _ false _ _); reflexivity.
Defined.

(** C3, as the code has it.  [what_if_analysis] restores the evidence
    when it returns: the evidence after the call is then the evidence
    before it.  It has no handler around the analysis: when the analysis
    raises, the evidence is left as the scenario set it.  The call returns
    whenever every factor has a probability under the scenario (and the
    rows keep their total cost, no factor being registered under that
    key). *)
Theorem what_if_restores_evidence_on_return {num : Type} `{Float num}
    (random : nat -> num) (depth : nat) (self : DecisionSupportSystem num)
    (events : dict bool) (w : World num) :
  (forall ra w', what_if_analysis random depth self events w = (Ok ra, w') ->
     evidence (bayesian_model w') = evidence (bayesian_model w))
  /\ (forall e w', what_if_analysis random depth self events w = (Raise e, w') ->
        evidence (bayesian_model w') = evidence (with_events (bayesian_model w) events))
  /\ ("total"%string ∉ keys (risk_structure (ontology (bayesian_model w))) ->
      computable (with_events (bayesian_model w) events) depth ->
      exists ra w', what_if_analysis random depth self events w = (Ok ra, w')).
Proof.
  pose proof (what_if_analysis_exits random depth self events w) as Hexit.
  split; [|split].
  - intros ra w' Hrun. rewrite Hrun in Hexit. exact Hexit.
  - intros e w' Hrun. rewrite Hrun in Hexit. exact Hexit.
  - apply what_if_analysis_Ok.
Qed.

Lemma what_if_scenario_returns :
  exists ra w',
    what_if_analysis sevenths 10
      (fst (DecisionSupportSystem_init sample_ontology)) scenario
      (snd (DecisionSupportSystem_init sample_ontology)) = (Ok ra, w')
    /\ evidence (bayesian_model w') = ∅.
Proof.
  destruct (what_if_restores_evidence_on_return sevenths 10
              (fst (DecisionSupportSystem_init sample_ontology)) scenario
              (snd (DecisionSupportSystem_init sample_ontology)))
    as [Hreturn [_ Hruns]].
  destruct Hruns as [ra [w' Hrun]].
  { refine (proj1 (bool_decide_eq_false _) _). reflexivity. }
  { apply computableb_sound. vm_compute. reflexivity. }
  exists ra, w'. split; [exact Hrun|]. exact (Hreturn ra w' Hrun).
Defined.

(** C3 as stated fails: with a parent that is not registered the analysis
    raises [KeyError], and the evidence is left with the override. *)
Lemma what_if_exception_keeps_overrides :
  fst (what_if_analysis sevenths 10
         (fst (DecisionSupportSystem_init dangling_ontology)) [("ghost"%string, true)]
         (snd (DecisionSupportSystem_init dangling_ontology)))
  = Raise (KeyError "ghost")
  /\ evidence (bayesian_model (snd (DecisionSupportSystem_init (num := Q) dangling_ontology)))
       !! "ghost"%string = None
  /\ evidence (bayesian_model
       (snd (what_if_analysis sevenths 10
               (fst (DecisionSupportSystem_init dangling_ontology)) [("ghost"%string, true)]
               (snd (DecisionSupportSystem_init dangling_ontology)))))
       !! "ghost"%string = Some true.
Proof. vm_compute. repeat split. Qed.

(** C4, as the code has it.  Nothing detects a revisit.  In a graph whose
    listed parents are all registered, a factor from which a chain of
    parent links through factors under no evidence leads to a factor on a
    cycle of such links has no probability: whatever depth the interpreter
    allows is exhausted, and the call fails with [RecursionError]. *)
Theorem cycle_exhausts_recursion_depth {num : Type} `{Float num}
    (self : BayesianNetworkModel num) (factor c : string) (fuel : nat) :
  closed self ->
  rtc (unobserved_parent_of self) factor c ->
  tc (unobserved_parent_of self) c c ->
  calculate_probability self fuel factor = Raise RecursionError.
Proof.
  intros Hclosed Hreach Hcycle.
  apply (calculate_probability_trapped self
           (fun f => rtc (unobserved_parent_of self) f c) Hclosed); [|exact Hreach].
  intros f Hf. apply rtc_inv in Hf as [->|[p [Hfp Hpc]]].
  - inversion Hcycle as [? ? Hstep|? p ? Hstep Hrest]; subst.
    + exists c. split; [exact Hstep|constructor].
    + exists p. split; [exact Hstep|apply tc_rtc, Hrest].
  - exists p. split; assumption.
Qed.

Lemma cycle_of_two_exhausts_recursion_depth :
  calculate_probability (BayesianNetworkModel_init cyclic_ontology) 1000 "a"
  = Raise (A := Q) RecursionError.
Proof.
  assert (Hab : unobserved_parent_of
                  (BayesianNetworkModel_init (num := Q) cyclic_ontology) "a" "b").
  { split; [|reflexivity]. eexists. split; [reflexivity|]. set_solver. }
  assert (Hba : unobserved_parent_of
                  (BayesianNetworkModel_init (num := Q) cyclic_ontology) "b" "a").
  { split; [|reflexivity]. eexists. split; [reflexivity|]. set_solver. }
  apply (cycle_exhausts_recursion_depth
           (BayesianNetworkModel_init cyclic_ontology) "a" "a" 1000).
  - apply closedb_sound. reflexivity.
  - constructor.
  - eapply tc_l; [exact Hab|]. apply tc_once, Hba.
Defined.

(** C4 as stated fails: evidence on a factor of a cycle cuts the
    recursion, and a probability is returned for the factors on the
    cycle. *)
Lemma observed_cycle_returns_probability :
  calculate_probability
    (set_evidence (BayesianNetworkModel_init cyclic_ontology) "a" true) 1000 "a"
  = Ok 1%Q
  /\ (exists v,
        calculate_probability
          (set_evidence (BayesianNetworkModel_init cyclic_ontology) "a" true) 1000 "b"
        = Ok v /\ (v == 1)%Q).
Proof. split; [reflexivity|]. eexists. split; [reflexivity|reflexivity]. Qed.

(** C5, as the code has it.  [run_simulation] does not validate the
    iteration count: for a count that is zero or negative the loop body
    never runs, nothing is raised, and the result is the empty frame, the
    evidence and the random generator left as they were. *)
Theorem nonpositive_run_is_empty {num : Type} `{Float num}
    (random : nat -> num) (depth : nat) (self : MonteCarloSimulator num)
    (n_iterations : Z) (w : World num) :
  n_iterations <= 0 ->
  run_simulation random depth self n_iterations w = (Ok [], w).
Proof. apply run_simulation_nonpositive. Qed.

Lemma run_of_minus_five_is_empty :
  run_simulation quarters 10 (MonteCarloSimulator_init sample_ontology) (-5)
    (world_of (BayesianNetworkModel_init (num := float) sample_ontology))
  = (Ok [], world_of (BayesianNetworkModel_init sample_ontology)).
Proof.
  apply (nonpositive_run_is_empty quarters 10
           (MonteCarloSimulator_init sample_ontology) (-5)). lia.
Defined.

(** C5 as stated fails: the runs of 0 and of -1 iterations return the
    empty frame. *)
Lemma run_of_zero_and_minus_one_return :
  fst (run_simulation sevenths 10 (MonteCarloSimulator_init sample_ontology) 0
         (world_of (BayesianNetworkModel_init sample_ontology))) = Ok []
  /\ fst (run_simulation sevenths 10 (MonteCarloSimulator_init sample_ontology) (-1)
            (world_of (BayesianNetworkModel_init sample_ontology))) = Ok [].
Proof. split; reflexivity. Qed.

(** The count and the total cost of the samples of a run, when no factor
    is registered under the key [total] of the row. *)
Lemma run_simulation_total_cost (random : nat -> Q) (depth : nat)
    (self : MonteCarloSimulator Q) (n_iterations : Z) (w : World Q) :
  0 < n_iterations ->
  computable (bayesian_model w) depth ->
  "total"%string ∉ keys (risk_structure (ontology (bayesian_model w))) ->
  exists rows w',
    run_simulation random depth self n_iterations w = (Ok rows, w')
    /\ length rows = Z.to_nat n_iterations
    /\ forall row, row ∈ rows ->
         exists total,
           row !! "total"%string = Some (VFloat total)
           /\ (total == sim_base_cost self
                        + triggered_costs (cost_impacts (sim_ontology self)) row)%Q
           /\ ((forall f impact, (f, impact) ∈ cost_impacts (sim_ontology self) ->
                  (0 < base_cost impact /\ 0 < multiplier_if_triggered impact)%Q) ->
               (sim_base_cost self <= total)%Q).
Proof.
  intros Hn Hcomp Hfree.
  destruct (run_simulation_Ok random depth self n_iterations w Hcomp)
    as [rows [w' [Hrun [_ [Hlen Hrows]]]]].
  exists rows, w'. split; [exact Hrun|]. split; [exact Hlen|].
  intros row Hrow. rewrite Forall_forall in Hrows.
  destruct (sample_total_cost random depth self (bayesian_model w) row Hfree
              (Hrows row Hrow)) as [total [Hlook Htotal]].
  exists total. split; [exact Hlook|]. split; [exact Htotal|].
  intros Hpos.
  pose proof (triggered_costs_nonneg (cost_impacts (sim_ontology self)) row Hpos).
  lra.
Qed.

(** C6 at a factor registered under the id [total]: the occurrence flag of
    the factor replaces the total cost of the row, in exact arithmetic and
    in binary64. *)
Theorem total_column_overwritten :
  (exists row,
     fst (run_simulation sevenths 10 (MonteCarloSimulator_init total_ontology) 1
            (world_of (BayesianNetworkModel_init total_ontology))) = Ok [row]
     /\ row !! "total"%string = Some (VBool true))
  /\ (exists row,
        fst (run_simulation quarters 10
               (MonteCarloSimulator_init (num := float) total_ontology) 1
               (world_of (BayesianNetworkModel_init total_ontology))) = Ok [row]
        /\ row !! "total"%string = Some (VBool true)).
Proof.
  split; eexists; (split; [vm_compute; reflexivity|vm_compute; reflexivity]).
Qed.

(** C7. In exact arithmetic: in a graph that is acyclic and whose listed
    parents are all registered, with root probabilities and CPT entries in
    [0, 1], every registered factor has, under any evidence, a probability,
    and it lies in [0, 1]; a depth of nested calls equal to the number of
    factors is enough to compute it.  The code computes in binary64 and
    never clamps: there the bound is not guaranteed. *)
Theorem probability_in_unit_interval (self : BayesianNetworkModel Q)
    (fuel : nat) (factor : string) :
  closed self -> acyclic self ->
  roots_in_unit self -> cpt_in_unit self ->
  registered self factor ->
  (length (risk_structure (ontology self)) <= fuel)%nat ->
  exists v, calculate_probability self fuel factor = Ok v /\ (0 <= v /\ v <= 1)%Q.
Proof.
  intros Hclosed Hacyclic Hroots Hcpt Hreg Hfuel.
  destruct (calculate_probability_terminates self fuel factor Hclosed Hacyclic Hreg Hfuel)
    as [v Hv].
  exists v. split; [exact Hv|].
  exact (calculate_probability_in_unit self fuel Hroots Hcpt factor v Hv).
Qed.

Lemma overtime_probability_in_unit_interval :
  exists v,
    calculate_probability
      (with_events (BayesianNetworkModel_init sample_ontology) scenario) 10 "overtime"
    = Ok v
    /\ (0 <= v /\ v <= 1)%Q.
Proof.
  apply (probability_in_unit_interval
           (with_events (BayesianNetworkModel_init sample_ontology) scenario)
           10 "overtime").
  - apply topologically_ordered_closed. reflexivity.
  - apply topologically_ordered_acyclic. reflexivity.
  - apply roots_in_unitb_sound. reflexivity.
  - apply cpt_in_unitb_sound. vm_compute. reflexivity.
  - eexists. reflexivity.
  - simpl. lia.
Defined.

(** In binary64 the bound fails by rounding.  The graph of
    [certain_model] is acyclic with all parents registered, and its root
    probabilities 0.10 and 0.40 and its table entries 1.0 lie in [0, 1];
    the four weights of the factor [c] add up to 1.0000000000000002, which
    is its marginal and is above 1.  In exact arithmetic the same marginal
    is 1. *)
Lemma rounded_marginal_exceeds_one :
  closed (certain_model (num := float))
  /\ acyclic (certain_model (num := float))
  /\ float_roots_in_unitb certain_model = true
  /\ float_cpt_in_unitb certain_model = true
  /\ registered (certain_model (num := float)) "c"
  /\ (exists v,
        calculate_probability (certain_model (num := float)) 3 "c" = Ok v
        /\ PrimFloat.ltb PrimFloat.one v = true
        /\ PrimFloat.leb v PrimFloat.one = false)
  /\ (exists v,
        calculate_probability (certain_model (num := Q)) 3 "c" = Ok v
        /\ (v == 1)%Q).
Proof.
  split; [apply topologically_ordered_closed; reflexivity|].
  split; [apply topologically_ordered_acyclic; reflexivity|].
  split; [vm_compute; reflexivity|].
  split; [vm_compute; reflexivity|].
  split; [eexists; reflexivity|].
  split; eexists; (split; [vm_compute; reflexivity|]).
  - split; vm_compute; reflexivity.
  - vm_compute. reflexivity.
Qed.

(** C8. For every frame of samples (not empty, each row with its total
    cost), [analyze_results] of the simulator as constructed (base cost
    100) returns statistics in which the fraction of samples over 120% of
    the base cost is at most the fraction over 110%. *)
Theorem over_budget_20_at_most_over_budget_10 (o : ShipbuildingOntology Q)
    (results : DataFrame Q) :
  float_totals results ->
  exists analysis,
    analyze_results (MonteCarloSimulator_init o) results = Ok analysis
    /\ (prob_over_budget_20 analysis <= prob_over_budget analysis)%Q.
Proof.
  intros [Hne Hrows]. destruct results as [|row rows]; [congruence|].
  destruct (Hrows row) as [total Htotal]; [left|].
  apply (analyze_results_budget (MonteCarloSimulator_init o) (row :: rows) row);
    [simpl; lra|left|rewrite Htotal; eauto].
Qed.

Lemma over_budget_of_three_costs :
  exists analysis,
    analyze_results (MonteCarloSimulator_init sample_ontology) three_costs = Ok analysis
    /\ (prob_over_budget_20 analysis <= prob_over_budget analysis)%Q.
Proof.
  apply (over_budget_20_at_most_over_budget_10 sample_ontology three_costs).
  split; [discriminate|].
  intros row Hrow. unfold three_costs in Hrow.
  repeat (apply elem_of_cons in Hrow as [->|Hrow]; [eexists; reflexivity|]).
  inversion Hrow.
Defined.

(** C9. [set_evidence] accepts any id: it raises nothing and records the
    flag under the id, registered or not, leaving the graph and the CPTs
    as they were.  An id that is not registered is rejected only when its
    probability is requested, by the [KeyError] of the lookup in
    [risk_structure]. *)
Theorem set_evidence_accepts_any_id {num : Type} `{Float num}
    (factor : string) (occurred : bool) (w : World num) :
  exists w',
    set_evidenceM factor occurred w = (Ok tt, w')
    /\ evidence (bayesian_model w') = <[ factor := occurred ]> (evidence (bayesian_model w))
    /\ ontology (bayesian_model w') = ontology (bayesian_model w)
    /\ cpt (bayesian_model w') = cpt (bayesian_model w)
    /\ (dict_get (risk_structure (ontology (bayesian_model w))) factor = None ->
        forall fuel,
          calculate_probability (bayesian_model w') (S fuel) factor
          = Raise (KeyError factor)).
Proof.
  eexists. split; [reflexivity|]. do 3 (split; [reflexivity|]).
  intros Hg fuel. apply calculate_probability_unregistered. exact Hg.
Qed.

Lemma set_evidence_accepts_unregistered_id :
  exists w',
    set_evidenceM "ghost" true (world_of (BayesianNetworkModel_init sample_ontology))
    = (Ok tt, w')
    /\ evidence (bayesian_model w') !! "ghost"%string = Some true
    /\ calculate_probability (bayesian_model w') 1 "ghost" = Raise (A := Q) (KeyError "ghost").
Proof.
  destruct (set_evidence_accepts_any_id "ghost" true
              (world_of (BayesianNetworkModel_init (num := Q) sample_ontology)))
    as [w' [Hrun [Hev [_ [_ Hlater]]]]].
  exists w'. split; [exact Hrun|]. split.
  - rewrite Hev. apply lookup_insert_eq.
  - apply Hlater. reflexivity.
Defined.

(** C10. In every sample of a run, a registered factor under evidence is
    marked as occurred exactly when its evidence is true: its probability
    is exactly 1.0 or 0.0, and a draw of [0, 1) is below 1.0 and not below
    0.0.  The run returns as many samples as iterations whenever every
    factor has a probability. *)
Theorem evidence_fixes_every_sample {num : Type} `{Float num}
    (random : nat -> num) (depth : nat) (self : MonteCarloSimulator num)
    (n_iterations : Z) (w : World num) :
  (forall i, unit_draw (random i)) ->
  computable (bayesian_model w) depth ->
  exists rows w',
    run_simulation random depth self n_iterations w = (Ok rows, w')
    /\ length rows = Z.to_nat n_iterations
    /\ forall row f (b : bool),
         row ∈ rows ->
         registered (bayesian_model w) f ->
         evidence (bayesian_model w) !! f = Some b ->
         row !! f = Some (VBool b).
Proof.
  intros Hdraw Hcomp.
  destruct (run_simulation_Ok random depth self n_iterations w Hcomp)
    as [rows [w' [Hrun [_ [Hlen Hrows]]]]].
  exists rows, w'. split; [exact Hrun|]. split; [exact Hlen|].
  intros row f b Hrow [risk Hg] Hev. rewrite Forall_forall in Hrows.
  destruct (Hrows row Hrow) as [st [-> [Hall Horigin]]].
  destruct (Hall f) as [b' Hb']; [eapply dict_get_keys, Hg|].
  destruct (Horigin f b' Hb') as [_ [i [prob [Hprob ->]]]].
  destruct depth as [|d]; [discriminate|].
  rewrite (calculate_probability_observed (bayesian_model w) d f risk b Hg Hev) in Hprob.
  injection Hprob as <-.
  rewrite (cost_row_flag self st f _ Hb'). do 2 f_equal.
  destruct (Hdraw i) as [Hone Hzero]. destruct b; assumption.
Qed.

Lemma evidence_fixes_scenario_samples :
  exists rows w',
    run_simulation quarters 10 (MonteCarloSimulator_init sample_ontology) 3
      (world_of (with_events (BayesianNetworkModel_init (num := float) sample_ontology)
                   scenario))
    = (Ok rows, w')
    /\ length rows = 3%nat
    /\ forall row, row ∈ rows ->
         row !! "material_delay"%string = Some (VBool true)
         /\ row !! "manpower_shortage"%string = Some (VBool false).
Proof.
  destruct (evidence_fixes_every_sample quarters 10
              (MonteCarloSimulator_init sample_ontology) 3
              (world_of (with_events (BayesianNetworkModel_init (num := float) sample_ontology)
                           scenario)))
    as [rows [w' [Hrun [Hlen Hrows]]]].
  - intros i. split; reflexivity.
  - apply computableb_sound. vm_compute. reflexivity.
  - exists rows, w'. split; [exact Hrun|]. split; [exact Hlen|].
    intros row Hrow. split.
    + apply (Hrows row "material_delay"%string true Hrow); [eexists|]; reflexivity.
    + apply (Hrows row "manpower_shortage"%string false Hrow); [eexists|]; reflexivity.
Defined.

(** * Further properties *)

(** ** Loops and the engine, again *)

Section LoopsAgain.
Context {A B : Type}.

Lemma mapM_ext (f g : A -> result B) l :
  (forall x, x ∈ l -> f x = g x) -> mapM f l = mapM g l.
Proof.
  induction l as [|x l IH]; intros Hfg; simpl; [reflexivity|].
  rewrite <- Hfg by left. rewrite IH; [reflexivity|].
  intros y Hy. apply Hfg. right. exact Hy.
Qed.

Lemma mapM_first_Raise (f : A -> result B) before x after e :
  (forall y, y ∈ before -> exists v, f y = Ok v) ->
  f x = Raise e ->
  mapM f (before ++ x :: after) = Raise e.
Proof.
  intros Hb Hx. induction before as [|y before IH]; simpl.
  - rewrite Hx. reflexivity.
  - destruct (Hb y) as [v ->]; [left|]. simpl.
    rewrite IH; [reflexivity|]. intros z Hz. apply Hb. right. exact Hz.
Qed.

Lemma mapM_Ok_exists (f : A -> result B) l :
  (forall x, x ∈ l -> exists y, f x = Ok y) -> exists ys, mapM f l = Ok ys.
Proof.
  induction l as [|x l IH]; intros Hf; simpl; [eauto|].
  destruct (Hf x) as [y ->]; [left|]. simpl.
  destruct IH as [ys ->]; [|simpl; eauto].
  intros z Hz. apply Hf. right. exact Hz.
Qed.

(** An outcome other than an exhausted recursion is kept by any function
    that keeps such outcomes on the elements. *)
Lemma mapM_stable (f g : A -> result B) l r :
  (forall x r', x ∈ l -> f x = r' -> r' <> Raise RecursionError -> g x = r') ->
  mapM f l = r -> r <> Raise RecursionError -> mapM g l = r.
Proof.
  revert r. induction l as [|x l IH]; intros r Hfg Hm Hr; simpl in *; [exact Hm|].
  destruct (f x) as [y|e] eqn:Hx; simpl in Hm.
  - rewrite (Hfg x (Ok y)); [|left|exact Hx|discriminate]. simpl.
    destruct (mapM f l) as [ys|e] eqn:Hl; simpl in Hm.
    + rewrite (IH (Ok ys)); [exact Hm| |reflexivity|discriminate].
      intros z r' Hz. apply Hfg. right. exact Hz.
    + rewrite (IH (Raise e)); [exact Hm| |reflexivity|congruence].
      intros z r' Hz. apply Hfg. right. exact Hz.
  - rewrite (Hfg x (Raise e)); [exact Hm|left|exact Hx|congruence].
Qed.

Lemma foldM_ext (f g : A -> B -> result A) l a :
  (forall a x, x ∈ l -> f a x = g a x) -> foldM f l a = foldM g l a.
Proof.
  revert a. induction l as [|x l IH]; intros a Hfg; simpl; [reflexivity|].
  rewrite <- Hfg by left. destruct (f a x); simpl; [|reflexivity].
  apply IH. intros a' y Hy. apply Hfg. right. exact Hy.
Qed.
End LoopsAgain.

Section EngineAgain.
Context {num : Type} `{Float num}.
Implicit Types (self : BayesianNetworkModel num) (fuel : nat)
               (factor : string) (risk : RiskFactor num).

Lemma combination_ext (rec rec' : string -> result num) ps states :
  (forall p, p ∈ ps -> rec p = rec' p) ->
  combination rec ps states = combination rec' ps states.
Proof.
  intros Hrec. unfold combination. apply foldM_ext.
  intros a [p b] Hin. rewrite Hrec; [reflexivity|].
  apply list_elem_of_lookup in Hin as [i Hi].
  apply lookup_zip_with_Some in Hi as (x & y & Heq & Hx & _).
  injection Heq as <- <-. eapply list_elem_of_lookup_2, Hx.
Qed.

Lemma marginalise_ext (rec rec' : string -> result num) ps table :
  (forall p, p ∈ ps -> rec p = rec' p) ->
  marginalise rec ps table = marginalise rec' ps table.
Proof.
  intros Hrec. unfold marginalise. generalize (f0 : num).
  induction (range (2 ^ len ps)) as [|i l IH]; intros a; simpl; [reflexivity|].
  rewrite (combination_ext rec rec') by exact Hrec.
  destruct (combination rec' ps _) as [w|e]; simpl; [|reflexivity].
  destruct (table !! _); simpl; apply IH.
Qed.

(** The four cases of one call. *)
Lemma calculate_probability_cases self fuel factor :
  calculate_probability self (S fuel) factor =
    match dict_get (risk_structure (ontology self)) factor with
    | None => Raise (KeyError factor)
    | Some risk =>
      match evidence self !! factor with
      | Some occurred => Ok (observed occurred)
      | None =>
        match parents risk with
        | [] => Ok (probability risk)
        | _ :: _ =>
          parent_probs <- mapM (calculate_probability self fuel) (parents risk) ;;
          match cpt self !! factor with
          | None => Ok (f1 - np_prod (map (fun p => f1 - p) parent_probs))%num
          | Some table =>
            marginalise (calculate_probability self fuel) (parents risk) table
          end
        end
      end
    end.
Proof.
  destruct (dict_get (risk_structure (ontology self)) factor) as [risk|] eqn:Hg.
  - destruct (evidence self !! factor) as [b|] eqn:Hev.
    + eapply calculate_probability_observed; eassumption.
    + destruct (parents risk) as [|p ps] eqn:Hps.
      * eapply calculate_probability_root; eassumption.
      * rewrite <- Hps. apply calculate_probability_inner; [assumption| |assumption].
        rewrite Hps. discriminate.
  - apply calculate_probability_unregistered. exact Hg.
Qed.

Lemma calculate_probability_stable_S self fuel :
  forall factor r,
    calculate_probability self fuel factor = r -> r <> Raise RecursionError ->
    calculate_probability self (S fuel) factor = r.
Proof.
  induction fuel as [|fuel IH]; intros factor r Hc Hr.
  { simpl in Hc. congruence. }
  rewrite calculate_probability_cases in Hc.
  rewrite calculate_probability_cases.
  destruct (dict_get (risk_structure (ontology self)) factor) as [risk|]; [|exact Hc].
  destruct (evidence self !! factor) as [b|]; [exact Hc|].
  destruct (parents risk) as [|p ps] eqn:Hps; [exact Hc|].
  rewrite <- Hps in *.
  destruct (mapM (calculate_probability self fuel) (parents risk)) as [probs|e] eqn:Hm.
  - assert (Hsame : forall q, q ∈ parents risk ->
              calculate_probability self fuel q = calculate_probability self (S fuel) q).
    { intros q Hq. destruct (mapM_Ok_elem _ _ _ _ Hm Hq) as [v Hv].
      rewrite Hv. symmetry. apply IH; [exact Hv|discriminate]. }
    rewrite <- (mapM_ext _ _ _ Hsame), Hm. simpl in *.
    destruct (cpt self !! factor) as [table|]; [|exact Hc].
    rewrite <- (marginalise_ext _ _ _ _ Hsame). exact Hc.
  - simpl in Hc. subst r.
    rewrite (mapM_stable (calculate_probability self fuel)
               (calculate_probability self (S fuel)) _ (Raise e)); [reflexivity| |exact Hm|congruence].
    intros q r' _. apply IH.
Qed.

Lemma calculate_probability_same_evidence self self' fuel :
  ontology self' = ontology self -> cpt self' = cpt self ->
  forall factor,
    (forall x, rtc (parent_of self) factor x -> evidence self' !! x = evidence self !! x) ->
    calculate_probability self' fuel factor = calculate_probability self fuel factor.
Proof.
  intros Ho Hc. induction fuel as [|fuel IH]; intros factor Hev; [reflexivity|].
  rewrite !calculate_probability_cases, Ho, Hc, (Hev factor) by constructor.
  destruct (dict_get (risk_structure (ontology self)) factor) as [risk|] eqn:Hg; [|reflexivity].
  destruct (evidence self !! factor) as [b|]; [reflexivity|].
  destruct (parents risk) as [|p ps] eqn:Hps; [reflexivity|].
  rewrite <- Hps.
  assert (Hsame : forall q, q ∈ parents risk ->
            calculate_probability self' fuel q = calculate_probability self fuel q).
  { intros q Hq. apply IH. intros x Hx. apply Hev.
    eapply rtc_l; [|exact Hx]. exists risk. split; assumption. }
  rewrite (mapM_ext _ _ _ Hsame).
  destruct (mapM (calculate_probability self fuel) (parents risk)); simpl; [|reflexivity].
  destruct (cpt self !! factor); [|reflexivity].
  apply marginalise_ext, Hsame.
Qed.

End EngineAgain.

(** X1. [calculate_probability]: an outcome reached within some recursion
    depth, a probability or a [KeyError], is the outcome at every larger
    depth; only [RecursionError] depends on the depth available. *)
Theorem deeper_recursion_keeps_outcome {num : Type} `{Float num}
    (self : BayesianNetworkModel num) (fuel fuel' : nat) (factor : string)
    (r : result num) :
  (fuel <= fuel')%nat ->
  calculate_probability self fuel factor = r ->
  r <> Raise RecursionError ->
  calculate_probability self fuel' factor = r.
Proof.
  intros Hle Hc Hr. induction Hle as [|fuel' _ IH]; [exact Hc|].
  apply calculate_probability_stable_S; assumption.
Qed.

Lemma deeper_recursion_keeps_overtime :
  calculate_probability (BayesianNetworkModel_init sample_ontology) 1000 "overtime"
  = calculate_probability (BayesianNetworkModel_init (num := Q) sample_ontology) 4 "overtime".
Proof.
  apply (deeper_recursion_keeps_outcome _ 4 1000); [lia|reflexivity|].
  vm_compute. discriminate.
Defined.

(** X2. [calculate_probability]: the parents of an unobserved factor are
    evaluated in their listed order, and the exception of the first parent
    that fails is the exception of the call; for a parent that is not
    registered this is [KeyError] of the parent's id. *)
Theorem first_failing_parent_decides {num : Type} `{Float num}
    (self : BayesianNetworkModel num) (fuel : nat) (factor : string)
    (risk : RiskFactor num) (before after : list string) (p : string) (e : exn) :
  dict_get (risk_structure (ontology self)) factor = Some risk ->
  parents risk = before ++ p :: after ->
  evidence self !! factor = None ->
  (forall q, q ∈ before -> exists v, calculate_probability self fuel q = Ok v) ->
  calculate_probability self fuel p = Raise e ->
  calculate_probability self (S fuel) factor = Raise e.
Proof.
  intros Hg Hps Hev Hbefore Hp.
  rewrite (calculate_probability_inner self fuel factor risk Hg); [|rewrite Hps; destruct before; discriminate|exact Hev].
  - rewrite Hps, (mapM_first_Raise _ before p after e Hbefore Hp). reflexivity.
Qed.

Lemma unregistered_parent_raises_its_key :
  calculate_probability (BayesianNetworkModel_init ghost_parent_ontology) 2 "block_delay"
  = Raise (A := Q) (KeyError "ghost").
Proof.
  apply (first_failing_parent_decides _ 1 "block_delay"
           (node 0.0 ["material_delay"%string; "ghost"%string])
           ["material_delay"%string] [] "ghost" (KeyError "ghost")).
  - reflexivity.
  - reflexivity.
  - reflexivity.
  - intros q Hq. apply list_elem_of_In in Hq. destruct Hq as [<-|[]].
    eexists. reflexivity.
  - reflexivity.
Defined.



(** X4. [set_evidence] and [calculate_probability]: evidence acts only
    downstream.  Evidence set on a factor that is not the requested factor
    and not reachable from it along parent links (a descendant, or an
    unrelated factor) leaves the outcome of the request unchanged: nothing
    is inferred from an effect about its causes. *)
Theorem evidence_acts_only_downstream {num : Type} `{Float num}
    (self : BayesianNetworkModel num) (fuel : nat) (factor observed_factor : string)
    (occurred : bool) :
  ~ rtc (parent_of self) factor observed_factor ->
  calculate_probability (set_evidence self observed_factor occurred) fuel factor
  = calculate_probability self fuel factor.
Proof.
  intros Hfar. apply calculate_probability_same_evidence; [reflexivity|reflexivity|].
  intros x Hx. simpl. apply lookup_insert_ne. intros <-. exact (Hfar Hx).
Qed.

Lemma overtime_evidence_leaves_material_delay :
  calculate_probability
    (set_evidence (BayesianNetworkModel_init sample_ontology) "overtime" true)
    10 "material_delay"
  = calculate_probability (BayesianNetworkModel_init (num := Q) sample_ontology)
      10 "material_delay".
Proof.
  apply evidence_acts_only_downstream.
  intros Hr. inversion Hr as [|x y z [risk [Hg Hin]] _]; subst.
  vm_compute in Hg. injection Hg as <-. inversion Hin.
Defined.

(** ** The noisy-OR fallback and the table branch, in exact arithmetic *)

Lemma fold_left_Qmult (l : list Q) (a : Q) : (fold_left Qmult l a == a * Qprod l)%Q.
Proof.
  revert a. induction l as [|x l IH]; intros a; simpl; [lra|].
  rewrite IH. lra.
Qed.

Lemma Qprod_in_unit (l : list Q) : Forall in_unit l -> in_unit (Qprod l).
Proof.
  induction 1 as [|x l [? ?] _ [? ?]]; simpl; split; try lra; nra.
Qed.

Lemma Qprod_le_factor (l : list Q) (x : Q) :
  Forall in_unit l -> x ∈ l -> (Qprod l <= x)%Q.
Proof.
  intros Hl. induction Hl as [|y l [? ?] Hl IH]; intros Hx; [inversion Hx|].
  pose proof (Qprod_in_unit l Hl) as [? ?]. simpl.
  apply elem_of_cons in Hx as [->|Hx]; [nra|].
  specialize (IH Hx). nra.
Qed.

Lemma Qprod_union_bound (l : list Q) :
  Forall in_unit l -> (1 - Qsum l <= Qprod (map (fun p => 1 - p) l))%Q.
Proof.
  induction 1 as [|x l [? ?] Hl IH]; simpl; [lra|].
  assert (Hc : Forall in_unit (map (fun p => 1 - p)%Q l)).
  { apply Forall_map. eapply Forall_impl; [exact Hl|]. intros p [? ?]. split; simpl; lra. }
  pose proof (Qprod_in_unit _ Hc) as [? ?]. nra.
Qed.

Lemma noisy_or_value (self : BayesianNetworkModel Q) (fuel : nat) (factor : string)
    (risk : RiskFactor Q) (P : string -> Q) :
  dict_get (risk_structure (ontology self)) factor = Some risk ->
  parents risk <> [] ->
  evidence self !! factor = None ->
  cpt self !! factor = None ->
  (forall p, p ∈ parents risk -> calculate_probability self fuel p = Ok (P p)) ->
  exists v, calculate_probability self (S fuel) factor = Ok v
    /\ (v == 1 - Qprod (map (fun p => 1 - P p) (parents risk)))%Q.
Proof.
  intros Hg Hinner Hev Hcpt HP.
  rewrite (calculate_probability_inner self fuel factor risk Hg Hinner Hev), Hcpt.
  rewrite (mapM_all_Ok _ P) by exact HP. simpl.
  eexists. split; [reflexivity|].
  unfold np_prod. exact_arith. rewrite fold_left_Qmult, map_map. lra.
Qed.

(** A sum in which one term is selected. *)
Lemma Qsum_select {A} `{EqDecision A} (g : A -> Q) (t : A) (l : list A) :
  NoDup l -> t ∈ l ->
  (Qsum (map (fun s => (if bool_decide (s = t) then 1 else 0) * g s) l) == g t)%Q.
Proof.
  intros Hnd. induction Hnd as [|x l Hx Hnd IH]; intros Ht; [inversion Ht|].
  simpl. destruct (bool_decide_reflect (x = t)) as [->|Hne].
  - rewrite (Qsum_ext _ (fun _ => 0%Q)).
    + assert (Hz : (Qsum (map (fun _ : A => 0) l) == 0)%Q).
      { clear. induction l as [|y l IH]; simpl; [lra|]. rewrite IH. lra. }
      rewrite Hz. lra.
    + intros s Hs. rewrite bool_decide_eq_false_2; [lra|]. intros ->. exact (Hx Hs).
  - apply elem_of_cons in Ht as [->|Ht]; [congruence|]. rewrite (IH Ht). lra.
Qed.

(** Under evidence on all the parents one combination has weight one. *)
Lemma weight_observed (e : string -> bool) (ps : list string) (states : list bool) :
  length states = length ps ->
  (weight (fun p => observed (e p)) ps states
   == if bool_decide (states = map e ps) then 1 else 0)%Q.
Proof.
  revert states. induction ps as [|p ps IH]; intros [|b states] Hlen;
    try discriminate Hlen; cbn [weight map].
  - reflexivity.
  - injection Hlen as Hlen. rewrite (IH states Hlen).
    destruct (bool_decide_reflect (b :: states = e p :: map e ps)) as [Heq|Hne];
      destruct (bool_decide_reflect (states = map e ps)) as [Heq'|Hne'];
      destruct b, (e p); try congruence; unfold observed; exact_arith; lra.
Qed.

Lemma Qsum_convex {A} (w c : A -> Q) (lo hi : Q) (l : list A) :
  (forall x, x ∈ l -> (0 <= w x /\ lo <= c x /\ c x <= hi)%Q) ->
  (lo * Qsum (map w l) <= Qsum (map (fun x => w x * c x) l)
   /\ Qsum (map (fun x => w x * c x) l) <= hi * Qsum (map w l))%Q.
Proof.
  induction l as [|x l IH]; intros Hb; simpl; [lra|].
  destruct (Hb x) as (? & ? & ?); [left|].
  destruct IH as [? ?]; [intros y Hy; apply Hb; right; exact Hy|].
  split; nra.
Qed.

(** X5. [calculate_probability], the branch without a table: the
    probability of an unobserved factor that has parents and no table is
    one minus the product, over its listed parents, of one minus the
    parent's probability (the noisy-OR of the parents). *)
Theorem fallback_is_noisy_or (self : BayesianNetworkModel Q) (fuel : nat)
    (factor : string) (risk : RiskFactor Q) (P : string -> Q) :
  dict_get (risk_structure (ontology self)) factor = Some risk ->
  parents risk <> [] ->
  evidence self !! factor = None ->
  cpt self !! factor = None ->
  (forall p, p ∈ parents risk -> calculate_probability self fuel p = Ok (P p)) ->
  exists v, calculate_probability self (S fuel) factor = Ok v
    /\ (v == 1 - Qprod (map (fun p => 1 - P p) (parents risk)))%Q.
Proof. exact (noisy_or_value self fuel factor risk P). Qed.

Lemma launch_delay_is_noisy_or :
  exists v,
    calculate_probability (BayesianNetworkModel_init fallback_ontology) 2 "launch_delay"
    = Ok v
    /\ (v == 1 - (1 - 0.30) * ((1 - 0.20) * 1))%Q.
Proof.
  refine (fallback_is_noisy_or (BayesianNetworkModel_init fallback_ontology) 1
            "launch_delay"
            (node 0.0 ["material_delay"%string; "bad_weather"%string])
            (fun p => if String.eqb p "material_delay" then 0.30%Q else 0.20%Q)
            _ _ _ _ _).
  - reflexivity.
  - discriminate.
  - reflexivity.
  - reflexivity.
  - intros p Hp. apply list_elem_of_In in Hp.
    destruct Hp as [<-|[<-|[]]]; reflexivity.
Defined.

(** In binary64 the noisy-OR of a single parent of probability 0.3 is
    0.30000000000000004, above the parent: the bounds below are bounds of
    exact arithmetic. *)
Example noisy_or_binary64_above_parent :
  match calculate_probability
          (BayesianNetworkModel_init (lone_parent_ontology (num := float))) 2 "b" with
  | Ok v => PrimFloat.ltb (literal 0.3) v
  | Raise _ => false
  end = true.
Proof. vm_compute. reflexivity. Qed.

(** X6. [calculate_probability], the branch without a table, in exact
    arithmetic: when the parents' probabilities lie in [0, 1], the
    noisy-OR is at least the probability of every parent, at most the sum
    of the parents' probabilities, and at most one; a parent that is
    certain makes the factor certain.  (In binary64 the bounds are not
    guaranteed.) *)
Theorem noisy_or_between_parents_and_their_sum (self : BayesianNetworkModel Q)
    (fuel : nat) (factor : string) (risk : RiskFactor Q) (P : string -> Q) :
  dict_get (risk_structure (ontology self)) factor = Some risk ->
  parents risk <> [] ->
  evidence self !! factor = None ->
  cpt self !! factor = None ->
  (forall p, p ∈ parents risk ->
     calculate_probability self fuel p = Ok (P p) /\ in_unit (P p)) ->
  exists v, calculate_probability self (S fuel) factor = Ok v
    /\ (forall p, p ∈ parents risk -> (P p <= v)%Q)
    /\ (v <= Qsum (map P (parents risk)))%Q
    /\ (v <= 1)%Q
    /\ (forall p, p ∈ parents risk -> (P p == 1)%Q -> (v == 1)%Q).
Proof.
  intros Hg Hinner Hev Hcpt HP.
  destruct (noisy_or_value self fuel factor risk P Hg Hinner Hev Hcpt
              (fun p Hp => proj1 (HP p Hp))) as [v [Hv Heq]].
  assert (Hunit : Forall in_unit (map P (parents risk))).
  { apply Forall_map, Forall_forall. intros p Hp. apply HP. exact Hp. }
  assert (Hco : Forall in_unit (map (fun p => 1 - P p)%Q (parents risk))).
  { apply Forall_map, Forall_forall. intros p Hp.
    destruct (HP p Hp) as [_ [? ?]]. split; simpl; lra. }
  pose proof (Qprod_in_unit _ Hco) as [Hp0 Hp1].
  assert (Hlow : forall p, p ∈ parents risk -> (P p <= v)%Q).
  { intros p Hp. rewrite Heq.
    assert (Hle : (Qprod (map (fun p => 1 - P p) (parents risk)) <= 1 - P p)%Q).
    { apply Qprod_le_factor; [exact Hco|].
      apply (list_elem_of_fmap_2 (fun p => 1 - P p)%Q). exact Hp. }
    lra. }
  exists v. split; [exact Hv|]. split; [exact Hlow|]. split; [|split].
  - rewrite Heq. pose proof (Qprod_union_bound _ Hunit) as Hub.
    rewrite map_map in Hub. lra.
  - rewrite Heq. lra.
  - intros p Hp H1. specialize (Hlow p Hp).
    assert (v <= 1)%Q by (rewrite Heq; lra). lra.
Qed.

Lemma launch_delay_between_parents_and_their_sum :
  exists v,
    calculate_probability (BayesianNetworkModel_init fallback_ontology) 2 "launch_delay"
    = Ok v
    /\ (0.30 <= v)%Q /\ (0.20 <= v)%Q /\ (v <= 0.30 + (0.20 + 0))%Q.
Proof.
  destruct (noisy_or_between_parents_and_their_sum
              (BayesianNetworkModel_init fallback_ontology) 1 "launch_delay"
              (node 0.0 ["material_delay"%string; "bad_weather"%string])
              (fun p => if String.eqb p "material_delay" then 0.30%Q else 0.20%Q))
    as (v & Hv & Hlow & Hsum & _).
  - reflexivity.
  - discriminate.
  - reflexivity.
  - reflexivity.
  - intros p Hp. apply list_elem_of_In in Hp.
    destruct Hp as [<-|[<-|[]]]; (split; [reflexivity|split; simpl; lra]).
  - exists v. split; [exact Hv|]. split; [|split].
    + apply (Hlow "material_delay"%string). left.
    + apply (Hlow "bad_weather"%string). right. left.
    + exact Hsum.
Defined.

(** X7. [calculate_probability], the table branch: when every parent of
    an unobserved factor is registered and under evidence, the marginal is
    the table entry of the observed combination of parent states (zero when
    the table has no such entry). *)
Theorem observed_parents_select_table_entry (self : BayesianNetworkModel Q)
    (fuel : nat) (factor : string) (risk : RiskFactor Q)
    (table : gmap (list bool) Q) (e : string -> bool) :
  dict_get (risk_structure (ontology self)) factor = Some risk ->
  parents risk <> [] ->
  evidence self !! factor = None ->
  cpt self !! factor = Some table ->
  (forall p, p ∈ parents risk ->
     registered self p /\ evidence self !! p = Some (e p)) ->
  exists v, calculate_probability self (S (S fuel)) factor = Ok v
    /\ (v == entry_or_zero table (map e (parents risk)))%Q.
Proof.
  intros Hg Hinner Hev Hcpt Hobs.
  destruct (cpt_marginal self (S fuel) factor risk table (fun p => observed (e p))
              (enumeration (length (parents risk))) Hg Hinner Hev Hcpt)
    as [v [Hv Heq]].
  - intros p Hp. destruct (Hobs p Hp) as [[r Hr] Hep].
    eapply calculate_probability_observed; eassumption.
  - apply enumeration_NoDup.
  - intros states. split; [apply enumeration_length|apply enumeration_complete].
  - exists v. split; [exact Hv|]. rewrite Heq.
    rewrite (Qsum_ext _ (fun s => (if bool_decide (s = map e (parents risk)) then 1 else 0)
                                  * entry_or_zero table s)%Q).
    + apply Qsum_select; [apply enumeration_NoDup|].
      apply enumeration_complete. apply length_map.
    + intros s Hs. apply enumeration_length in Hs.
      rewrite (weight_observed e _ s Hs). reflexivity.
Qed.

Lemma block_delay_under_scenario_is_table_entry :
  exists v,
    calculate_probability
      (with_events (BayesianNetworkModel_init sample_ontology) scenario) 2 "block_delay"
    = Ok v
    /\ (v == 0.60)%Q.
Proof.
  refine (observed_parents_select_table_entry
            (with_events (BayesianNetworkModel_init sample_ontology) scenario) 0
            "block_delay"
            {| name := "블록작업지연"; probability := 0.0%Q;
               parents := ["material_delay"; "manpower_shortage"]%string |}
            (cpt_table 0.85 0.60 0.55 0.10)
            (fun p => String.eqb p "material_delay")
            _ _ _ _ _).
  - reflexivity.
  - discriminate.
  - reflexivity.
  - reflexivity.
  - intros p Hp. apply list_elem_of_In in Hp.
    destruct Hp as [<-|[<-|[]]]; (split; [eexists; reflexivity|reflexivity]).
Defined.

(** X8. [calculate_probability], the table branch, in exact arithmetic:
    when the table has an entry for every combination of parent states and
    the parents' probabilities lie in [0, 1], the marginal lies between the
    smallest and the largest entry of the table; evidence upstream cannot
    move it out of that range.  (In binary64 the range is not guaranteed:
    the marginal of [c] in [certain_model] is above its largest table
    entry.) *)
Theorem marginal_within_table_range (self : BayesianNetworkModel Q)
    (fuel : nat) (factor : string) (risk : RiskFactor Q)
    (table : gmap (list bool) Q) (P : string -> Q) (lo hi : Q) :
  dict_get (risk_structure (ontology self)) factor = Some risk ->
  parents risk <> [] ->
  evidence self !! factor = None ->
  cpt self !! factor = Some table ->
  (forall p, p ∈ parents risk ->
     calculate_probability self fuel p = Ok (P p) /\ in_unit (P p)) ->
  (forall states, length states = length (parents risk) ->
     exists c, table !! states = Some c /\ (lo <= c /\ c <= hi)%Q) ->
  exists v, calculate_probability self (S fuel) factor = Ok v
    /\ (lo <= v /\ v <= hi)%Q.
Proof.
  intros Hg Hinner Hev Hcpt HP Htable.
  destruct (cpt_marginal self fuel factor risk table P
              (enumeration (length (parents risk))) Hg Hinner Hev Hcpt)
    as [v [Hv Heq]].
  - intros p Hp. apply HP. exact Hp.
  - apply enumeration_NoDup.
  - intros states. split; [apply enumeration_length|apply enumeration_complete].
  - exists v. split; [exact Hv|]. rewrite Heq.
    pose proof (Qsum_convex (weight P (parents risk)) (entry_or_zero table) lo hi
                  (enumeration (length (parents risk)))) as Hconv.
    rewrite weight_total in Hconv.
    destruct Hconv as [? ?]; [|lra].
    intros s Hs. apply enumeration_length in Hs. split.
    + apply weight_nonneg. intros p Hp. apply HP. exact Hp.
    + destruct (Htable s Hs) as (c & Hc & ? & ?). unfold entry_or_zero. rewrite Hc.
      split; assumption.
Qed.

Lemma block_delay_within_table_range :
  exists v,
    calculate_probability (BayesianNetworkModel_init sample_ontology) 2 "block_delay"
    = Ok v
    /\ (0.10 <= v /\ v <= 0.85)%Q.
Proof.
  refine (marginal_within_table_range
            (BayesianNetworkModel_init sample_ontology) 1 "block_delay"
            {| name := "블록작업지연"; probability := 0.0%Q;
               parents := ["material_delay"; "manpower_shortage"]%string |}
            (cpt_table 0.85 0.60 0.55 0.10)
            (fun p => if String.eqb p "material_delay" then 0.30%Q else 0.25%Q)
            0.10%Q 0.85%Q _ _ _ _ _ _).
  - reflexivity.
  - discriminate.
  - reflexivity.
  - reflexivity.
  - intros p Hp. apply list_elem_of_In in Hp.
    destruct Hp as [<-|[<-|[]]]; (split; [reflexivity|split; simpl; lra]).
  - intros [|a [|b [|c states]]] Hlen; try discriminate Hlen.
    destruct a, b; eexists; (split; [reflexivity|split; simpl; lra]).
Defined.

(** ** Evidence and the risk analysis *)

Section EvidenceAgain.
Context {num : Type} `{Float num}.
Implicit Types (self : BayesianNetworkModel num) (fuel : nat) (factor : string).

(** The outcome of a request depends on the evidence only through the
    registered factors. *)
Lemma calculate_probability_registered_evidence self self' fuel :
  ontology self' = ontology self -> cpt self' = cpt self ->
  (forall x, registered self x -> evidence self' !! x = evidence self !! x) ->
  forall factor,
    calculate_probability self' fuel factor = calculate_probability self fuel factor.
Proof.
  intros Ho Hc Hev. induction fuel as [|fuel IH]; intros factor; [reflexivity|].
  rewrite !calculate_probability_cases, Ho, Hc.
  destruct (dict_get (risk_structure (ontology self)) factor) as [risk|] eqn:Hg; [|reflexivity].
  rewrite (Hev factor) by (exists risk; exact Hg).
  destruct (evidence self !! factor) as [b|]; [reflexivity|].
  destruct (parents risk) as [|p ps] eqn:Hps; [reflexivity|].
  rewrite (mapM_ext _ (calculate_probability self fuel)) by (intros; apply IH).
  destruct (mapM _ _); simpl; [|reflexivity].
  destruct (cpt self !! factor); [|reflexivity].
  apply marginalise_ext. intros; apply IH.
Qed.

Lemma with_events_cpt self events : cpt (with_events self events) = cpt self.
Proof.
  unfold with_events. revert self.
  induction events as [|[f o] events IH]; intros self; [reflexivity|].
  simpl. rewrite IH. reflexivity.
Qed.

Lemma with_events_snoc self events f (b : bool) :
  with_events self (events ++ [(f, b)]) = set_evidence (with_events self events) f b.
Proof. unfold with_events. rewrite fold_left_app. reflexivity. Qed.

Lemma with_events_evidence self events f :
  evidence (with_events self events) !! f =
    match last_event events f with
    | Some b => Some b
    | None => evidence self !! f
    end.
Proof.
  unfold last_event.
  induction events as [|[k b] events IH] using rev_ind; [reflexivity|].
  rewrite with_events_snoc, reverse_snoc. simpl.
  destruct (String.eqb_spec k f) as [->|Hne].
  - apply lookup_insert_eq.
  - rewrite lookup_insert_ne by exact Hne. exact IH.
Qed.

Lemma dict_get_map_keys {V} (g : string -> V) (l : list string) f :
  f ∈ l -> dict_get (map (fun k => (k, g k)) l) f = Some (g f).
Proof.
  induction l as [|k l IH]; intros Hf; [inversion Hf|]. simpl.
  destruct (String.eqb_spec k f) as [->|Hne]; [reflexivity|].
  apply IH. apply elem_of_cons in Hf as [->|Hf]; [congruence|exact Hf].
Qed.
End EvidenceAgain.

(** X9. [set_evidence] and [calculate_probability]: evidence recorded for
    an id that is not registered is never read: it changes the outcome of
    no request, at any depth, for any factor. *)
Theorem evidence_on_unregistered_id_is_inert {num : Type} `{Float num}
    (self : BayesianNetworkModel num) (ghost : string) (occurred : bool)
    (fuel : nat) (factor : string) :
  dict_get (risk_structure (ontology self)) ghost = None ->
  calculate_probability (set_evidence self ghost occurred) fuel factor
  = calculate_probability self fuel factor.
Proof.
  intros Hg. apply calculate_probability_registered_evidence; [reflexivity|reflexivity|].
  intros x [risk Hx]. simpl. apply lookup_insert_ne. intros <-. congruence.
Qed.

Lemma typhoon_evidence_leaves_overtime :
  calculate_probability
    (set_evidence (BayesianNetworkModel_init sample_ontology) "typhoon" true) 10 "overtime"
  = calculate_probability (BayesianNetworkModel_init (num := Q) sample_ontology)
      10 "overtime".
Proof. apply evidence_on_unregistered_id_is_inert. reflexivity. Defined.

(** X10. [get_all_probabilities]: when every registered factor has a
    probability, the result has the keys of [risk_structure] in their
    order, and looking a registered factor up in it gives the outcome of
    [calculate_probability] for that factor. *)
Theorem all_probabilities_cover_every_factor {num : Type} `{Float num}
    (self : BayesianNetworkModel num) (fuel : nat) :
  computable self fuel ->
  exists probs,
    get_all_probabilities self fuel = Ok probs
    /\ keys probs = keys (risk_structure (ontology self))
    /\ forall f, f ∈ keys (risk_structure (ontology self)) ->
         exists v, dict_get probs f = Some v
                   /\ calculate_probability self fuel f = Ok v.
Proof.
  intros Hcomp. unfold get_all_probabilities.
  set (P := fun f => match calculate_probability self fuel f with
                     | Ok v => v | Raise _ => f0 end).
  assert (HP : forall f, f ∈ keys (risk_structure (ontology self)) ->
                 calculate_probability self fuel f = Ok (P f)).
  { intros f Hf. destruct (Hcomp f Hf) as [v Hv]. unfold P. rewrite Hv. reflexivity. }
  rewrite (mapM_all_Ok _ (fun f => (f, P f))).
  2:{ intros f Hf. rewrite (HP f Hf). reflexivity. }
  eexists. split; [reflexivity|]. split.
  - unfold keys at 1. rewrite map_map. simpl. apply map_id.
  - intros f Hf. exists (P f). split; [|apply HP; exact Hf].
    apply dict_get_map_keys. exact Hf.
Qed.

Lemma all_probabilities_of_the_sample :
  exists probs,
    get_all_probabilities (BayesianNetworkModel_init (num := Q) sample_ontology) 10 = Ok probs
    /\ keys probs = keys (sample_structure (num := Q))
    /\ exists v, dict_get probs "material_waste" = Some v
                 /\ calculate_probability (BayesianNetworkModel_init sample_ontology)
                      10 "material_waste" = Ok v.
Proof.
  destruct (all_probabilities_cover_every_factor
              (BayesianNetworkModel_init (num := Q) sample_ontology) 10)
    as (probs & Hp & Hk & Hall).
  - apply computableb_sound. vm_compute. reflexivity.
  - exists probs. split; [exact Hp|]. split; [exact Hk|].
    apply Hall. refine (bool_decide_unpack _ _). vm_compute. reflexivity.
Defined.

(** X11. [analyze_current_risk]: the factors are evaluated in the order
    of [risk_structure]; the exception of the first factor that fails is
    raised, and the evidence and the random generator are left as they
    were. *)
Theorem risk_analysis_raises_first_failure {num : Type} `{Float num}
    (depth : nat) (self : DecisionSupportSystem num) (w : World num)
    (before after : list string) (f : string) (e : exn) :
  keys (risk_structure (ontology (bayesian_model w))) = before ++ f :: after ->
  (forall g, g ∈ before ->
     exists v, calculate_probability (bayesian_model w) depth g = Ok v) ->
  calculate_probability (bayesian_model w) depth f = Raise e ->
  analyze_current_risk depth self w = (Raise e, w).
Proof.
  intros Hk Hbefore Hf.
  unfold analyze_current_risk, bindM, get_model, lift, ret, get_all_probabilities.
  rewrite Hk.
  rewrite (mapM_first_Raise _ before f after e); [reflexivity| |].
  - intros g Hg. destruct (Hbefore g Hg) as [v ->]. simpl. eauto.
  - rewrite Hf. reflexivity.
Qed.

Lemma risk_analysis_of_cycle_raises :
  analyze_current_risk 50 (fst (DecisionSupportSystem_init cyclic_ontology))
    (snd (DecisionSupportSystem_init (num := Q) cyclic_ontology))
  = (Raise RecursionError, snd (DecisionSupportSystem_init cyclic_ontology)).
Proof.
  apply (risk_analysis_raises_first_failure 50 _ _ [] ["b"%string] "a" RecursionError).
  - reflexivity.
  - intros g Hg. inversion Hg.
  - vm_compute. reflexivity.
Defined.

(** X12. [update_status]: the call never raises, for any ids; it leaves
    the graph, the tables and the random generator as they were; a factor
    listed in the events carries the listed value afterwards, and every
    other factor keeps the evidence it had.  Evidence is only added or
    overwritten, never retracted. *)
Theorem update_status_overwrites_listed_evidence {num : Type} `{Float num}
    (self : DecisionSupportSystem num) (events : dict bool) (w : World num) :
  exists w',
    update_status self events w = (Ok tt, w')
    /\ drawn w' = drawn w
    /\ ontology (bayesian_model w') = ontology (bayesian_model w)
    /\ cpt (bayesian_model w') = cpt (bayesian_model w)
    /\ (forall f, evidence (bayesian_model w') !! f =
                  match last_event events f with
                  | Some occurred => Some occurred
                  | None => evidence (bayesian_model w) !! f
                  end)
    /\ (forall f, is_Some (evidence (bayesian_model w) !! f) ->
                  is_Some (evidence (bayesian_model w') !! f)).
Proof.
  unfold update_status. rewrite apply_events_eq. eexists. split; [reflexivity|].
  simpl. split; [reflexivity|]. split; [apply with_events_ontology|].
  split; [apply with_events_cpt|]. split; [apply with_events_evidence|].
  intros f Hf. rewrite with_events_evidence.
  destruct (last_event events f); [eauto|exact Hf].
Qed.

(** X13. [update_status] followed by [calculate_probability]: after the
    status update, the probability of a registered factor listed in the
    events is 1.0 when it is listed as occurred and 0.0 otherwise, at any
    depth of at least one, whatever its parents and its table. *)
Theorem updated_factor_is_certain {num : Type} `{Float num}
    (self : DecisionSupportSystem num) (events : dict bool) (w : World num)
    (f : string) (occurred : bool) (fuel : nat) :
  registered (bayesian_model w) f ->
  last_event events f = Some occurred ->
  calculate_probability (bayesian_model (snd (update_status self events w))) (S fuel) f
  = Ok (if occurred then f1 else f0).
Proof.
  intros [risk Hr] Hlast. unfold update_status. rewrite apply_events_eq. simpl.
  apply (calculate_probability_observed _ fuel f risk occurred).
  - rewrite with_events_ontology. exact Hr.
  - rewrite with_events_evidence, Hlast. reflexivity.
Qed.

Lemma updated_material_delay_is_certain :
  calculate_probability
    (bayesian_model
       (snd (update_status (fst (DecisionSupportSystem_init sample_ontology))
               [("material_delay"%string, true); ("bad_weather"%string, true)]
               (snd (DecisionSupportSystem_init (num := float) sample_ontology)))))
    1 "material_delay"
  = Ok PrimFloat.one.
Proof.
  refine (updated_factor_is_certain
            (fst (DecisionSupportSystem_init sample_ontology))
            [("material_delay"%string, true); ("bad_weather"%string, true)]
            (snd (DecisionSupportSystem_init (num := float) sample_ontology))
            "material_delay" true 0 _ _).
  - eexists. reflexivity.
  - reflexivity.
Defined.

(** ** The draws of the simulation *)

Section Draws.
Context {num : Type} `{Float num}.
Variables (random : nat -> num) (depth : nat).
Implicit Types (self : MonteCarloSimulator num) (w : World num)
               (bm : BayesianNetworkModel num).

Lemma sample_loop_trace (l : list string) (st : gmap string bool) w :
  (forall f, f ∈ l -> exists v, calculate_probability (bayesian_model w) depth f = Ok v) ->
  NoDup l ->
  exists st',
    forM (sample_factor random depth) l st w
      = (Ok st', {| bayesian_model := bayesian_model w;
                    drawn := drawn w + length l |})
    /\ (forall f, f ∉ l -> st' !! f = st !! f)
    /\ (forall (j : nat) f prob,
          l !! j = Some f ->
          calculate_probability (bayesian_model w) depth f = Ok prob ->
          st' !! f = Some (random (drawn w + j)%nat <? prob)%num).
Proof.
  revert st w. induction l as [|f l IH]; intros st w Hok Hnd.
  - exists st. simpl. unfold ret. rewrite Nat.add_0_r. destruct w. simpl.
    split; [reflexivity|]. split; [reflexivity|]. intros j g prob Hj. discriminate.
  - destruct (Hok f) as [prob Hprob]; [left|].
    apply NoDup_cons in Hnd as [Hf Hnd].
    simpl. unfold bindM at 1. rewrite sample_factor_eq, Hprob.
    set (w1 := {| bayesian_model := bayesian_model w; drawn := S (drawn w) |}).
    destruct (IH (<[ f := (random (drawn w) <? prob)%num ]> st) w1)
      as (st' & Hrun & Hout & Hin).
    { intros g Hg. apply Hok. right. exact Hg. }
    { exact Hnd. }
    exists st'. rewrite Hrun. simpl. split; [|split].
    + do 2 f_equal. lia.
    + intros g Hg. apply not_elem_of_cons in Hg as [Hne Hg].
      rewrite (Hout g Hg). apply lookup_insert_ne. congruence.
    + intros [|j] g prob' Hj Hg; simpl in Hj.
      * injection Hj as <-. rewrite (Hout f Hf), lookup_insert_eq, Nat.add_0_r.
        congruence.
      * rewrite (Hin j g prob' Hj Hg). simpl. do 3 f_equal. lia.
Qed.

Lemma iteration_trace self w :
  computable (bayesian_model w) depth ->
  NoDup (keys (risk_structure (ontology (bayesian_model w)))) ->
  exists st : gmap string bool,
    iteration random depth self w
      = (Ok (cost_row self st),
         {| bayesian_model := bayesian_model w;
            drawn := drawn w + length (risk_structure (ontology (bayesian_model w))) |})
    /\ (forall (j : nat) f prob,
          keys (risk_structure (ontology (bayesian_model w))) !! j = Some f ->
          calculate_probability (bayesian_model w) depth f = Ok prob ->
          st !! f = Some (random (drawn w + j)%nat <? prob)%num).
Proof.
  intros Hcomp Hnd. unfold iteration, bindM, get_model, ret.
  destruct (sample_loop_trace _ ∅ w Hcomp Hnd) as (st & Hrun & _ & Hin).
  rewrite Hrun. exists st. unfold keys. rewrite length_map. split; [reflexivity|exact Hin].
Qed.

Lemma run_loop_trace self (l : list Z) (results : DataFrame num) w :
  computable (bayesian_model w) depth ->
  NoDup (keys (risk_structure (ontology (bayesian_model w)))) ->
  exists rows,
    forM (fun results _ => row <~ iteration random depth self ;;
                           ret (results ++ [row])) l results w
      = (Ok (results ++ rows),
         {| bayesian_model := bayesian_model w;
            drawn := drawn w
                     + length l * length (risk_structure (ontology (bayesian_model w))) |})
    /\ length rows = length l
    /\ (forall (i j : nat) row f prob,
          rows !! i = Some row ->
          keys (risk_structure (ontology (bayesian_model w))) !! j = Some f ->
          calculate_probability (bayesian_model w) depth f = Ok prob ->
          row !! f =
            Some (VBool (random (drawn w
                                 + i * length (risk_structure (ontology (bayesian_model w)))
                                 + j)%nat <? prob)%num)).
Proof.
  revert results w. induction l as [|x l IH]; intros results w Hcomp Hnd.
  - exists []. simpl. unfold ret. rewrite app_nil_r, Nat.add_0_r. destruct w.
    split; [reflexivity|]. split; [reflexivity|]. intros i j row f prob Hi. discriminate.
  - destruct (iteration_trace self w Hcomp Hnd) as (st & Hit & Hst).
    simpl. unfold bindM at 1 2. rewrite Hit. unfold ret at 1.
    set (m := length (risk_structure (ontology (bayesian_model w)))) in *.
    set (w1 := {| bayesian_model := bayesian_model w; drawn := drawn w + m |}) in *.
    destruct (IH (results ++ [cost_row self st]) w1 Hcomp Hnd) as (rows & Hrun & Hlen & Hrows).
    exists (cost_row self st :: rows). rewrite Hrun, <- app_assoc. simpl.
    split; [do 2 f_equal; fold m; lia|]. split; [lia|].
    intros [|i] j row f prob Hi Hj Hf; simpl in Hi.
    + injection Hi as <-. apply cost_row_flag. rewrite (Hst j f prob Hj Hf).
      do 3 f_equal. lia.
    + rewrite (Hrows i j row f prob Hi Hj Hf). simpl. fold m. do 4 f_equal. lia.
Qed.
End Draws.

(** X14. [run_simulation]: a run of n iterations over m registered
    factors takes exactly n * m draws from the random generator and leaves
    the network as it was; the occurrence flag that row i stores for the
    j-th factor of [risk_structure] is the comparison of draw number
    i * m + j of the run with that factor's probability. *)
Theorem run_consumes_one_draw_per_factor {num : Type} `{Float num}
    (random : nat -> num) (depth : nat) (self : MonteCarloSimulator num)
    (n_iterations : Z) (w : World num) :
  computable (bayesian_model w) depth ->
  NoDup (keys (risk_structure (ontology (bayesian_model w)))) ->
  exists rows w',
    run_simulation random depth self n_iterations w = (Ok rows, w')
    /\ length rows = Z.to_nat n_iterations
    /\ bayesian_model w' = bayesian_model w
    /\ drawn w' = (drawn w + Z.to_nat n_iterations
                             * length (risk_structure (ontology (bayesian_model w))))%nat
    /\ forall (i j : nat) row f prob,
         rows !! i = Some row ->
         keys (risk_structure (ontology (bayesian_model w))) !! j = Some f ->
         calculate_probability (bayesian_model w) depth f = Ok prob ->
         row !! f =
           Some (VBool (random (drawn w
                                + i * length (risk_structure (ontology (bayesian_model w)))
                                + j)%nat <? prob)%num).
Proof.
  intros Hcomp Hnd. unfold run_simulation.
  destruct (run_loop_trace random depth self (range n_iterations) [] w Hcomp Hnd)
    as (rows & Hrun & Hlen & Hrows).
  rewrite range_length in Hlen, Hrun.
  eexists rows, _. split; [exact Hrun|]. split; [exact Hlen|].
  split; [reflexivity|]. split; [reflexivity|]. exact Hrows.
Qed.

Lemma two_iterations_take_twenty_draws :
  exists rows w',
    run_simulation sevenths 10 (MonteCarloSimulator_init sample_ontology) 2
      (world_of (BayesianNetworkModel_init sample_ontology)) = (Ok rows, w')
    /\ length rows = 2%nat
    /\ drawn w' = 20%nat
    /\ forall row, rows !! 1%nat = Some row ->
         row !! "bad_weather"%string = Some (VBool (sevenths 13%nat <? 0.20%Q)%num).
Proof.
  destruct (run_consumes_one_draw_per_factor sevenths 10
              (MonteCarloSimulator_init sample_ontology) 2
              (world_of (BayesianNetworkModel_init sample_ontology)))
    as (rows & w' & Hrun & Hlen & _ & Hdrawn & Hrows).
  - apply computableb_sound. vm_compute. reflexivity.
  - refine (bool_decide_unpack _ _). vm_compute. reflexivity.
  - exists rows, w'. split; [exact Hrun|]. split; [exact Hlen|]. split; [exact Hdrawn|].
    intros row Hrow.
    exact (Hrows 1%nat 3%nat row "bad_weather"%string 0.20%Q Hrow eq_refl eq_refl).
Defined.

(** ** The columns of the result frame *)

Section Columns.
Context {num : Type} `{Float num}.
Implicit Types (self : MonteCarloSimulator num) (st : gmap string bool).

Lemma add_cost_snoc st (impacts : dict (CostImpact num)) f impact t
    (cb : gmap string (value num)) :
  snd (fold_left (add_cost st) (impacts ++ [(f, impact)]) (t, cb)) =
    <[ f := VFloat (match st !! f with
                    | Some true => (base_cost impact * multiplier_if_triggered impact)%num
                    | _ => f0
                    end) ]>
      (snd (fold_left (add_cost st) impacts (t, cb))).
Proof.
  rewrite fold_left_app. simpl.
  destruct (fold_left (add_cost st) impacts (t, cb)) as [t' cb']. simpl.
  destruct (st !! f) as [[|]|]; reflexivity.
Qed.

Lemma add_cost_keys st (impacts : dict (CostImpact num)) t
    (cb : gmap string (value num)) k :
  is_Some (snd (fold_left (add_cost st) impacts (t, cb)) !! k)
  <-> is_Some (cb !! k) \/ k ∈ keys impacts.
Proof.
  induction impacts as [|[f impact] impacts IH] using rev_ind.
  - simpl. split; [auto|]. intros [Hk|Hk]; [exact Hk|inversion Hk].
  - rewrite add_cost_snoc. unfold keys. rewrite map_app, elem_of_app. simpl.
    destruct (decide (f = k)) as [->|Hne].
    + rewrite lookup_insert_eq. split; [|eauto]. intros _. right. right. left.
    + rewrite lookup_insert_ne by exact Hne. rewrite IH. unfold keys.
      rewrite list_elem_of_singleton. intuition congruence.
Qed.

Lemma add_cost_untriggered st (impacts : dict (CostImpact num)) t
    (cb : gmap string (value num)) f :
  st !! f = None -> f ∈ keys impacts ->
  snd (fold_left (add_cost st) impacts (t, cb)) !! f = Some (VFloat f0).
Proof.
  intros Hst. induction impacts as [|[k impact] impacts IH] using rev_ind;
    intros Hf; [inversion Hf|].
  rewrite add_cost_snoc.
  destruct (decide (k = f)) as [->|Hne].
  - rewrite lookup_insert_eq, Hst. reflexivity.
  - rewrite lookup_insert_ne by exact Hne. apply IH.
    unfold keys in Hf. rewrite map_app, elem_of_app in Hf. simpl in Hf.
    destruct Hf as [Hf|Hf]; [exact Hf|].
    apply list_elem_of_singleton in Hf. congruence.
Qed.

Lemma cost_row_keys self st k :
  is_Some (cost_row self st !! k)
  <-> k = "base"%string \/ k = "total"%string
      \/ k ∈ keys (cost_impacts (sim_ontology self)) \/ is_Some (st !! k).
Proof.
  rewrite cost_row_unfold.
  rewrite <- (not_eq_None_Some (_ !! k)), lookup_union_None.
  rewrite lookup_fmap, fmap_None.
  destruct (st !! k) as [b|] eqn:Hst.
  - split; [intros _; do 3 right; eauto|]. intros _ [Hn _]. discriminate.
  - destruct (decide ("total"%string = k)) as [<-|Hne].
    + rewrite lookup_insert_eq. split; [intros _; right; left; reflexivity|].
      intros _ [_ Hn]. discriminate.
    + rewrite lookup_insert_ne by exact Hne.
      rewrite <- (not_eq_None_Some (None : option bool)).
      pose proof (add_cost_keys st (cost_impacts (sim_ontology self))
                    (sim_base_cost self)
                    {[ "base"%string := VFloat (sim_base_cost self) ]} k) as Hkeys.
      rewrite lookup_singleton_is_Some in Hkeys.
      rewrite <- not_eq_None_Some in Hkeys.
      split.
      * intros Hn. assert (Hs : snd (fold_left (add_cost st) (cost_impacts (sim_ontology self))
                    (sim_base_cost self,
                     {[ "base"%string := VFloat (sim_base_cost self) ]})) !! k <> None).
        { intros Hnone. apply Hn. split; [reflexivity|exact Hnone]. }
        apply Hkeys in Hs as [<-|Hs]; [left; reflexivity|right; right; left; exact Hs].
      * intros [->|[->|[Hk|Hk]]] [_ Hn].
        -- apply Hkeys in Hn; [exact Hn|left; reflexivity].
        -- congruence.
        -- apply Hkeys in Hn; [exact Hn|right; exact Hk].
        -- congruence.
Qed.

Lemma cost_row_untriggered self st f :
  st !! f = None -> f <> "total"%string ->
  f ∈ keys (cost_impacts (sim_ontology self)) ->
  cost_row self st !! f = Some (VFloat f0).
Proof.
  intros Hst Hne Hf. rewrite cost_row_unfold, lookup_union_r.
  - rewrite lookup_insert_ne by congruence. apply add_cost_untriggered; assumption.
  - rewrite lookup_fmap, Hst. reflexivity.
Qed.

Lemma sample_state_keys (random : nat -> num) (depth : nat) self
    (bm : BayesianNetworkModel num) (row : gmap string (value num)) :
  is_sample random depth self bm row ->
  exists st, row = cost_row self st
    /\ forall f, is_Some (st !! f) <-> f ∈ keys (risk_structure (ontology bm)).
Proof.
  intros (st & -> & Hall & Horigin). exists st. split; [reflexivity|].
  intros f. split; [|apply Hall]. intros [b Hb]. apply (Horigin f b Hb).
Qed.
End Columns.

(** X15. [run_simulation]: every row of the result frame has a cell
    under exactly these keys: [base], [total], the ids of the cost drivers
    and the ids of the registered factors; the frame has no other column
    and no missing cell. *)
Theorem rows_have_cost_and_factor_columns {num : Type} `{Float num}
    (random : nat -> num) (depth : nat) (self : MonteCarloSimulator num)
    (n_iterations : Z) (w : World num) :
  computable (bayesian_model w) depth ->
  exists rows w',
    run_simulation random depth self n_iterations w = (Ok rows, w')
    /\ length rows = Z.to_nat n_iterations
    /\ forall row k, row ∈ rows ->
         (is_Some (row !! k)
          <-> k = "base"%string \/ k = "total"%string
              \/ k ∈ keys (cost_impacts (sim_ontology self))
              \/ k ∈ keys (risk_structure (ontology (bayesian_model w)))).
Proof.
  intros Hcomp.
  destruct (run_simulation_Ok random depth self n_iterations w Hcomp)
    as (rows & w' & Hrun & _ & Hlen & Hrows).
  exists rows, w'. split; [exact Hrun|]. split; [exact Hlen|].
  intros row k Hrow. rewrite Forall_forall in Hrows.
  destruct (sample_state_keys _ _ _ _ _ (Hrows row Hrow)) as (st & -> & Hst).
  rewrite cost_row_keys, Hst. reflexivity.
Qed.

Lemma sample_rows_have_factor_columns :
  exists rows w',
    run_simulation sevenths 10 (MonteCarloSimulator_init sample_ontology) 4
      (world_of (BayesianNetworkModel_init sample_ontology)) = (Ok rows, w')
    /\ length rows = 4%nat
    /\ forall row, row ∈ rows ->
         is_Some (row !! "idle_time"%string) /\ row !! "cost"%string = None.
Proof.
  destruct (rows_have_cost_and_factor_columns sevenths 10
              (MonteCarloSimulator_init sample_ontology) 4
              (world_of (BayesianNetworkModel_init sample_ontology)))
    as (rows & w' & Hrun & Hlen & Hrows).
  - apply computableb_sound. vm_compute. reflexivity.
  - exists rows, w'. split; [exact Hrun|]. split; [exact Hlen|].
    intros row Hrow. split.
    + apply (Hrows row _ Hrow). do 3 right.
      refine (bool_decide_unpack _ _). vm_compute. reflexivity.
    + apply eq_None_not_Some. intros Hk. apply (Hrows row _ Hrow) in Hk.
      revert Hk. refine (bool_decide_unpack _ _). vm_compute. reflexivity.
Defined.

(** X16. [run_simulation]: the column of a cost driver does not hold
    its cost.  When the driver is a registered factor,
    [cost_breakdown.update(iteration_state)] replaces the cost stored under
    its id by the occurrence flag; when it is not registered, it never
    occurs and the column holds 0.0. *)
Theorem driver_column_holds_flag_or_zero {num : Type} `{Float num}
    (random : nat -> num) (depth : nat) (self : MonteCarloSimulator num)
    (n_iterations : Z) (w : World num) :
  computable (bayesian_model w) depth ->
  exists rows w',
    run_simulation random depth self n_iterations w = (Ok rows, w')
    /\ length rows = Z.to_nat n_iterations
    /\ forall row f, row ∈ rows ->
         f ∈ keys (cost_impacts (sim_ontology self)) ->
         (f ∈ keys (risk_structure (ontology (bayesian_model w))) ->
          exists occurred : bool, row !! f = Some (VBool occurred))
         /\ (f ∉ keys (risk_structure (ontology (bayesian_model w))) ->
             f <> "total"%string ->
             row !! f = Some (VFloat f0)).
Proof.
  intros Hcomp.
  destruct (run_simulation_Ok random depth self n_iterations w Hcomp)
    as (rows & w' & Hrun & _ & Hlen & Hrows).
  exists rows, w'. split; [exact Hrun|]. split; [exact Hlen|].
  intros row f Hrow Hdriver. rewrite Forall_forall in Hrows.
  destruct (sample_state_keys _ _ _ _ _ (Hrows row Hrow)) as (st & -> & Hst).
  split.
  - intros Hreg. apply Hst in Hreg as [b Hb]. exists b. apply cost_row_flag, Hb.
  - intros Hfree Hne. apply cost_row_untriggered; [|exact Hne|exact Hdriver].
    apply eq_None_not_Some. rewrite Hst. exact Hfree.
Qed.

Lemma launch_delay_column_holds_flag :
  exists rows w',
    run_simulation sevenths 10 (MonteCarloSimulator_init fallback_ontology) 3
      (world_of (BayesianNetworkModel_init fallback_ontology)) = (Ok rows, w')
    /\ length rows = 3%nat
    /\ forall row, row ∈ rows ->
         (exists occurred : bool, row !! "launch_delay"%string = Some (VBool occurred))
         /\ row !! "penalty"%string = Some (VFloat 0%Q).
Proof.
  destruct (driver_column_holds_flag_or_zero sevenths 10
              (MonteCarloSimulator_init fallback_ontology) 3
              (world_of (BayesianNetworkModel_init fallback_ontology)))
    as (rows & w' & Hrun & Hlen & Hrows).
  - apply computableb_sound. vm_compute. reflexivity.
  - exists rows, w'. split; [exact Hrun|]. split; [exact Hlen|].
    intros row Hrow. split.
    + apply (Hrows row "launch_delay"%string Hrow).
      * refine (bool_decide_unpack _ _). vm_compute. reflexivity.
      * refine (bool_decide_unpack _ _). vm_compute. reflexivity.
    + apply (Hrows row "penalty"%string Hrow).
      * refine (bool_decide_unpack _ _). vm_compute. reflexivity.
      * refine (bool_decide_unpack _ _). vm_compute. reflexivity.
      * discriminate.
Defined.

(** ** Scenarios and budget statistics *)

Section Scenarios.
Context {num : Type} `{Float num}.
Variables (random : nat -> num) (depth : nat).

Lemma sample_follows_evidence (self : MonteCarloSimulator num)
    (bm : BayesianNetworkModel num) (row : gmap string (value num))
    (f : string) (b : bool) :
  (forall i, unit_draw (random i)) ->
  is_sample random depth self bm row ->
  registered bm f ->
  evidence bm !! f = Some b ->
  row !! f = Some (VBool b).
Proof.
  intros Hdraw (st & -> & Hall & Horigin) [risk Hg] Hev.
  destruct (Hall f) as [b' Hb']; [eapply dict_get_keys, Hg|].
  destruct (Horigin f b' Hb') as [_ [i [prob [Hprob ->]]]].
  destruct depth as [|d]; [discriminate|].
  rewrite (calculate_probability_observed bm d f risk b Hg Hev) in Hprob.
  injection Hprob as <-.
  rewrite (cost_row_flag self st f _ Hb'). do 2 f_equal.
  destruct (Hdraw i) as [Hone Hzero]. destruct b; assumption.
Qed.

(** A scenario analysis is a simulation of 5000 iterations under the
    evidence of the scenario. *)
Lemma what_if_analysis_run (self : DecisionSupportSystem num) (events : dict bool)
    (w : World num) :
  "total"%string ∉ keys (risk_structure (ontology (bayesian_model w))) ->
  computable (with_events (bayesian_model w) events) depth ->
  exists rows analysis w',
    what_if_analysis random depth self events w = (Ok (rows, analysis), w')
    /\ length rows = 5000%nat
    /\ analyze_results (simulator self) rows = Ok analysis
    /\ evidence (bayesian_model w') = evidence (bayesian_model w)
    /\ Forall (is_sample random depth (simulator self)
                 (with_events (bayesian_model w) events)) rows.
Proof.
  intros Hfree Hcomp. unfold what_if_analysis. unfold bindM at 1, get_model at 1.
  unfold bindM at 1. rewrite apply_events_eq.
  set (w1 := {| bayesian_model := with_events (bayesian_model w) events;
                drawn := drawn w |}).
  unfold bindM at 1. rewrite (analyze_current_risk_Ok depth self w1) by exact Hcomp.
  unfold bindM at 1. unfold run_cost_simulation. unfold bindM at 1.
  destruct (run_simulation_Ok random depth (simulator self) 5000 w1 Hcomp)
    as (rows & w2 & Hrun & Hbm & Hlen & Hrows).
  rewrite Hrun.
  destruct (analyze_results_Ok (simulator self) rows) as [analysis Han].
  { split.
    - intros ->. simpl in Hlen. lia.
    - intros row Hrow. rewrite Forall_forall in Hrows.
      eapply sample_float_total; [|apply Hrows, Hrow].
      simpl. rewrite with_events_ontology. exact Hfree. }
  unfold bindM, lift, ret, get_model, put_model. rewrite Han.
  exists rows, analysis. eexists. split; [reflexivity|].
  split; [exact Hlen|]. split; [exact Han|]. split; [reflexivity|exact Hrows].
Qed.
End Scenarios.

Lemma mean_bool_in_unit (flags : list bool) : in_unit (mean_bool flags).
Proof.
  unfold mean_bool, len. exact_arith.
  pose proof (length_filter (fun b : bool => b = true) flags) as Hle.
  set (c := length (filter (fun b : bool => b = true) flags)) in *.
  set (n := length flags) in *.
  destruct (decide (n = 0)%nat) as [Hz|Hpos].
  - assert (c = 0)%nat as -> by lia. rewrite Hz. split; vm_compute; discriminate.
  - assert (Hn : (0 < inject_Z (Z.of_nat n))%Q).
    { change 0%Q with (inject_Z 0). rewrite <- Zlt_Qlt. lia. }
    split.
    + apply Qle_shift_div_l; [exact Hn|]. rewrite Qmult_0_l.
      change 0%Q with (inject_Z 0). rewrite <- Zle_Qle. lia.
    + apply Qle_shift_div_r; [exact Hn|]. rewrite Qmult_1_l.
      rewrite <- Zle_Qle. lia.
Qed.

Lemma mean_bool_none {A} (g : A -> bool) (l : list A) :
  (forall x, x ∈ l -> g x = false) -> (mean_bool (map g l) == 0)%Q.
Proof.
  intros Hall. unfold mean_bool, len. exact_arith.
  replace (filter (fun b : bool => b = true) (map g l)) with (@nil bool).
  - change (inject_Z (Z.of_nat (length (@nil bool)))) with 0%Q.
    unfold Qdiv. apply Qmult_0_l.
  - symmetry. induction l as [|x l IH]; [reflexivity|]. simpl.
    rewrite filter_cons, (Hall x) by left. case_decide; [discriminate|].
    apply IH. intros y Hy. apply Hall. right. exact Hy.
Qed.

Lemma triggered_costs_le_all (impacts : dict (CostImpact Q))
    (row : gmap string (value Q)) :
  positive_costs impacts -> (triggered_costs impacts row <= all_costs impacts)%Q.
Proof.
  intros Hpos. unfold triggered_costs, all_costs.
  induction impacts as [|[f impact] impacts IH]; simpl; [lra|].
  assert (Hrest : (Qsum (map (fun item : string * CostImpact Q =>
               match row !! fst item with
               | Some (VBool true) =>
                 base_cost (snd item) * multiplier_if_triggered (snd item)
               | _ => 0
               end) impacts)
            <= Qsum (map (fun item : string * CostImpact Q =>
                 base_cost (snd item) * multiplier_if_triggered (snd item)) impacts))%Q).
  { apply IH. intros g i Hg. apply (Hpos g i). right. exact Hg. }
  destruct (Hpos f impact) as [Hb Hm]; [left|].
  destruct (row !! f) as [[x|[|]]|]; nra.
Qed.

Lemma positive_costsb_sound (impacts : dict (CostImpact Q)) :
  positive_costsb impacts = true -> positive_costs impacts.
Proof.
  unfold positive_costsb. rewrite forallb_forall. intros Hall f impact Hin.
  specialize (Hall (f, impact) ltac:(apply list_elem_of_In, Hin)). simpl in Hall.
  apply andb_true_iff in Hall as [Hb Hm].
  apply negb_true_iff in Hb, Hm.
  split.
  - destruct (Qlt_le_dec 0 (base_cost impact)) as [?|Hle]; [assumption|].
    apply Qle_bool_iff in Hle. congruence.
  - destruct (Qlt_le_dec 0 (multiplier_if_triggered impact)) as [?|Hle]; [assumption|].
    apply Qle_bool_iff in Hle. congruence.
Qed.

Lemma sample_total_bounds (random : nat -> Q) (depth : nat)
    (self : MonteCarloSimulator Q) (bm : BayesianNetworkModel Q)
    (row : gmap string (value Q)) :
  "total"%string ∉ keys (risk_structure (ontology bm)) ->
  positive_costs (cost_impacts (sim_ontology self)) ->
  is_sample random depth self bm row ->
  exists total, row !! "total"%string = Some (VFloat total)
    /\ (sim_base_cost self <= total
        /\ total <= sim_base_cost self + all_costs (cost_impacts (sim_ontology self)))%Q.
Proof.
  intros Hfree Hpos Hrow.
  destruct (sample_total_cost random depth self bm row Hfree Hrow) as (total & Ht & Heq).
  exists total. split; [exact Ht|].
  pose proof (triggered_costs_nonneg _ row Hpos).
  pose proof (triggered_costs_le_all _ row Hpos). lra.
Qed.

(** X17. [analyze_results]: on a frame of samples with their total
    costs, the analysis returns and the two budget statistics are
    fractions: each lies in [0, 1]. *)
Theorem budget_statistics_are_fractions (self : MonteCarloSimulator Q)
    (results : DataFrame Q) :
  float_totals results ->
  exists analysis,
    analyze_results self results = Ok analysis
    /\ in_unit (prob_over_budget analysis)
    /\ in_unit (prob_over_budget_20 analysis).
Proof.
  intros [Hne Hrows]. destruct results as [|row rows]; [congruence|].
  destruct (Hrows row) as [total Htotal]; [left|].
  unfold analyze_results.
  rewrite (column_Ok (row :: rows) "total" row); [|left|rewrite Htotal; eauto].
  cbn [bind]. eexists. split; [reflexivity|].
  cbn [prob_over_budget prob_over_budget_20]. split; apply mean_bool_in_unit.
Qed.

Lemma budget_statistics_of_three_costs :
  exists analysis,
    analyze_results (MonteCarloSimulator_init sample_ontology) three_costs = Ok analysis
    /\ in_unit (prob_over_budget analysis)
    /\ in_unit (prob_over_budget_20 analysis).
Proof.
  apply budget_statistics_are_fractions. split; [discriminate|].
  intros row Hrow. apply list_elem_of_In in Hrow.
  destruct Hrow as [<-|[<-|[<-|[]]]]; eexists; reflexivity.
Defined.

(** X18. [run_cost_simulation]: for a non-positive number of
    iterations the simulation returns the empty frame and the analysis of
    that frame raises [KeyError] of the total column; the evidence and the
    random generator are left as they were. *)
Theorem cost_simulation_of_no_iterations_raises {num : Type} `{Float num}
    (random : nat -> num) (depth : nat) (self : DecisionSupportSystem num)
    (n_iterations : Z) (w : World num) :
  n_iterations <= 0 ->
  run_cost_simulation random depth self n_iterations w = (Raise (KeyError "total"), w).
Proof.
  intros Hn. unfold run_cost_simulation, bindM.
  rewrite run_simulation_nonpositive by exact Hn. reflexivity.
Qed.

Lemma cost_simulation_of_zero_raises :
  run_cost_simulation quarters 10 (fst (DecisionSupportSystem_init sample_ontology)) 0
    (snd (DecisionSupportSystem_init (num := float) sample_ontology))
  = (Raise (KeyError "total"), snd (DecisionSupportSystem_init sample_ontology)).
Proof. apply cost_simulation_of_no_iterations_raises. lia. Defined.

(** X19. [what_if_analysis]: when every factor has a probability under
    the scenario, the call returns 5000 samples and their analysis, the
    evidence is as before the call, and in every sample a registered factor
    listed in the scenario is marked exactly as the scenario lists it. *)
Theorem what_if_samples_follow_scenario {num : Type} `{Float num}
    (random : nat -> num) (depth : nat) (self : DecisionSupportSystem num)
    (events : dict bool) (w : World num) :
  (forall i, unit_draw (random i)) ->
  "total"%string ∉ keys (risk_structure (ontology (bayesian_model w))) ->
  computable (with_events (bayesian_model w) events) depth ->
  exists rows analysis w',
    what_if_analysis random depth self events w = (Ok (rows, analysis), w')
    /\ length rows = 5000%nat
    /\ analyze_results (simulator self) rows = Ok analysis
    /\ evidence (bayesian_model w') = evidence (bayesian_model w)
    /\ forall row f (occurred : bool),
         row ∈ rows ->
         registered (bayesian_model w) f ->
         last_event events f = Some occurred ->
         row !! f = Some (VBool occurred).
Proof.
  intros Hdraw Hfree Hcomp.
  destruct (what_if_analysis_run random depth self events w Hfree Hcomp)
    as (rows & analysis & w' & Hrun & Hlen & Han & Hev & Hrows).
  exists rows, analysis, w'. do 4 (split; [assumption|]).
  intros row f occurred Hrow [risk Hreg] Hlast. rewrite Forall_forall in Hrows.
  apply (sample_follows_evidence random depth (simulator self)
           (with_events (bayesian_model w) events)); [exact Hdraw|auto| |].
  - exists risk. rewrite with_events_ontology. exact Hreg.
  - rewrite with_events_evidence, Hlast. reflexivity.
Qed.

Lemma what_if_samples_follow_the_scenario :
  exists rows analysis w',
    what_if_analysis quarters 10
      (fst (DecisionSupportSystem_init sample_ontology)) scenario
      (snd (DecisionSupportSystem_init (num := float) sample_ontology))
    = (Ok (rows, analysis), w')
    /\ length rows = 5000%nat
    /\ evidence (bayesian_model w') = ∅
    /\ forall row, row ∈ rows ->
         row !! "material_delay"%string = Some (VBool true)
         /\ row !! "manpower_shortage"%string = Some (VBool false).
Proof.
  destruct (what_if_samples_follow_scenario quarters 10
              (fst (DecisionSupportSystem_init sample_ontology)) scenario
              (snd (DecisionSupportSystem_init (num := float) sample_ontology)))
    as (rows & analysis & w' & Hrun & Hlen & _ & Hev & Hrows).
  - intros i. split; reflexivity.
  - refine (proj1 (bool_decide_eq_false _) _). reflexivity.
  - apply computableb_sound. vm_compute. reflexivity.
  - exists rows, analysis, w'. split; [exact Hrun|]. split; [exact Hlen|].
    split; [exact Hev|]. intros row Hrow. split.
    + apply (Hrows row "material_delay"%string true Hrow); [eexists|]; reflexivity.
    + apply (Hrows row "manpower_shortage"%string false Hrow); [eexists|]; reflexivity.
Defined.

(** X20. [run_simulation]: when no factor is registered under [total]
    and the cost drivers have positive costs, the total cost of every
    sample lies between the base cost and the base cost plus the cost of
    all the drivers together. *)
Theorem total_cost_is_bounded (random : nat -> Q) (depth : nat)
    (self : MonteCarloSimulator Q) (n_iterations : Z) (w : World Q) :
  computable (bayesian_model w) depth ->
  "total"%string ∉ keys (risk_structure (ontology (bayesian_model w))) ->
  positive_costs (cost_impacts (sim_ontology self)) ->
  exists rows w',
    run_simulation random depth self n_iterations w = (Ok rows, w')
    /\ length rows = Z.to_nat n_iterations
    /\ forall row, row ∈ rows ->
         exists total,
           row !! "total"%string = Some (VFloat total)
           /\ (sim_base_cost self <= total
               /\ total <= sim_base_cost self
                           + all_costs (cost_impacts (sim_ontology self)))%Q.
Proof.
  intros Hcomp Hfree Hpos.
  destruct (run_simulation_Ok random depth self n_iterations w Hcomp)
    as (rows & w' & Hrun & _ & Hlen & Hrows).
  exists rows, w'. split; [exact Hrun|]. split; [exact Hlen|].
  intros row Hrow. rewrite Forall_forall in Hrows.
  eapply sample_total_bounds; [exact Hfree|exact Hpos|apply Hrows, Hrow].
Qed.

Lemma sample_total_cost_is_bounded :
  exists rows w',
    run_simulation sevenths 10 (MonteCarloSimulator_init sample_ontology) 5
      (world_of (BayesianNetworkModel_init sample_ontology)) = (Ok rows, w')
    /\ length rows = 5%nat
    /\ forall row, row ∈ rows ->
         exists total,
           row !! "total"%string = Some (VFloat total)
           /\ (100 <= total /\ total <= 111.8)%Q.
Proof.
  destruct (total_cost_is_bounded sevenths 10
              (MonteCarloSimulator_init sample_ontology) 5
              (world_of (BayesianNetworkModel_init sample_ontology)))
    as (rows & w' & Hrun & Hlen & Hrows).
  - apply computableb_sound. vm_compute. reflexivity.
  - refine (proj1 (bool_decide_eq_false _) _). reflexivity.
  - apply positive_costsb_sound. vm_compute. reflexivity.
  - exists rows, w'. split; [exact Hrun|]. split; [exact Hlen|].
    intros row Hrow. destruct (Hrows row Hrow) as (total & Ht & Hlo & Hhi).
    exists total. split; [exact Ht|].
    assert (Hall : (all_costs (sample_cost_impacts (num := Q)) == 11.8)%Q)
      by (vm_compute; reflexivity).
    simpl in Hlo, Hhi. rewrite Hall in Hhi. split; lra.
Defined.

(** X21. [run_cost_simulation], in exact arithmetic: when the base cost
    plus the cost of all the drivers together does not exceed 1.2 times the
    base cost, no sample is more than 20 % over budget and the reported
    probability of that is 0; the sample costs (100 and at most 11.8 on
    top) are such a case.  (No statement is made for binary64, where the
    sums and the threshold are rounded.) *)
Theorem over_budget_20_is_impossible_for_small_costs (random : nat -> Q) (depth : nat)
    (self : DecisionSupportSystem Q) (n_iterations : Z) (w : World Q) :
  0 < n_iterations ->
  computable (bayesian_model w) depth ->
  "total"%string ∉ keys (risk_structure (ontology (bayesian_model w))) ->
  positive_costs (cost_impacts (sim_ontology (simulator self))) ->
  (sim_base_cost (simulator self)
   + all_costs (cost_impacts (sim_ontology (simulator self)))
   <= sim_base_cost (simulator self) * 1.2)%Q ->
  exists rows analysis w',
    run_cost_simulation random depth self n_iterations w = (Ok (rows, analysis), w')
    /\ length rows = Z.to_nat n_iterations
    /\ (prob_over_budget_20 analysis == 0)%Q.
Proof.
  intros Hn Hcomp Hfree Hpos Hsmall. unfold run_cost_simulation. unfold bindM at 1.
  destruct (run_simulation_Ok random depth (simulator self) n_iterations w Hcomp)
    as (rows & w' & Hrun & _ & Hlen & Hrows).
  rewrite Hrun. rewrite Forall_forall in Hrows.
  assert (Hbound : forall row, row ∈ rows ->
            exists total, row !! "total"%string = Some (VFloat total)
              /\ (total <= sim_base_cost (simulator self) * 1.2)%Q).
  { intros row Hrow.
    destruct (sample_total_bounds random depth (simulator self) (bayesian_model w) row
                Hfree Hpos (Hrows row Hrow)) as (total & Ht & _ & Hhi).
    exists total. split; [exact Ht|]. lra. }
  destruct rows as [|row rows]; [simpl in Hlen; lia|].
  destruct (Hbound row) as (total & Ht & _); [left|].
  unfold bindM, lift, ret, analyze_results.
  rewrite (column_Ok (row :: rows) "total" row); [|left|rewrite Ht; eauto].
  cbn [bind]. eexists _, _, _. split; [reflexivity|]. split; [exact Hlen|].
  cbn [prob_over_budget_20]. rewrite map_map. apply mean_bool_none.
  intros r Hr. destruct (Hbound r Hr) as (t & -> & Hle).
  unfold exceeds. exact_arith. apply negb_false_iff, Qle_bool_iff. exact Hle.
Qed.

Lemma sample_is_never_20_percent_over_budget :
  exists rows analysis w',
    run_cost_simulation sevenths 10 (fst (DecisionSupportSystem_init sample_ontology)) 10000
      (snd (DecisionSupportSystem_init sample_ontology)) = (Ok (rows, analysis), w')
    /\ length rows = Z.to_nat 10000
    /\ (prob_over_budget_20 analysis == 0)%Q.
Proof.
  destruct (over_budget_20_is_impossible_for_small_costs sevenths 10
              (fst (DecisionSupportSystem_init sample_ontology)) 10000
              (snd (DecisionSupportSystem_init sample_ontology)))
    as (rows & analysis & w' & Hrun & Hlen & Hzero).
  - lia.
  - apply computableb_sound. vm_compute. reflexivity.
  - refine (proj1 (bool_decide_eq_false _) _). reflexivity.
  - apply positive_costsb_sound. vm_compute. reflexivity.
  - vm_compute. discriminate.
  - exists rows, analysis, w'. split; [exact Hrun|]. split; [exact Hlen|exact Hzero].
Defined.

(** ** A simulation over a graph without probabilities *)

Section Failure.
Context {num : Type} `{Float num}.
Variables (random : nat -> num) (depth : nat).

Lemma sample_loop_first_Raise (before after : list string) (f : string) (e : exn)
    (st : gmap string bool) (w : World num) :
  (forall g, g ∈ before ->
     exists v, calculate_probability (bayesian_model w) depth g = Ok v) ->
  calculate_probability (bayesian_model w) depth f = Raise e ->
  forM (sample_factor random depth) (before ++ f :: after) st w
  = (Raise e, {| bayesian_model := bayesian_model w;
                 drawn := drawn w + length before |}).
Proof.
  revert st w. induction before as [|g before IH]; intros st w Hbefore Hf.
  - simpl. unfold bindM. rewrite sample_factor_eq, Hf, Nat.add_0_r.
    destruct w. reflexivity.
  - destruct (Hbefore g) as [v Hv]; [left|].
    simpl. unfold bindM at 1. rewrite sample_factor_eq, Hv.
    rewrite IH; simpl; [do 2 f_equal; lia| |exact Hf].
    intros g' Hg'. apply Hbefore. right. exact Hg'.
Qed.
End Failure.

(** X25. [run_simulation]: when some registered factor has no
    probability, a run of at least one iteration raises the exception of
    the first such factor in the order of [risk_structure], during the
    first iteration; no frame is returned, the evidence is as before, and
    one draw has been taken for each factor ahead of the failing one. *)
Theorem run_raises_first_failure {num : Type} `{Float num}
    (random : nat -> num) (depth : nat) (self : MonteCarloSimulator num)
    (n_iterations : Z) (w : World num)
    (before after : list string) (f : string) (e : exn) :
  0 < n_iterations ->
  keys (risk_structure (ontology (bayesian_model w))) = before ++ f :: after ->
  (forall g, g ∈ before ->
     exists v, calculate_probability (bayesian_model w) depth g = Ok v) ->
  calculate_probability (bayesian_model w) depth f = Raise e ->
  run_simulation random depth self n_iterations w
  = (Raise e, {| bayesian_model := bayesian_model w;
                 drawn := drawn w + length before |}).
Proof.
  intros Hn Hk Hbefore Hf. unfold run_simulation.
  replace n_iterations with (1 + (n_iterations - 1)) by lia.
  rewrite range_app by lia. simpl.
  unfold bindM at 1 2, iteration at 1, bindM at 1 2, get_model at 1.
  rewrite Hk, (sample_loop_first_Raise random depth before after f e ∅ w Hbefore Hf).
  reflexivity.
Qed.

Lemma run_over_unregistered_parent_raises :
  run_simulation sevenths 10 (MonteCarloSimulator_init ghost_parent_ontology) 100
    (world_of (BayesianNetworkModel_init ghost_parent_ontology))
  = (Raise (KeyError "ghost"),
     {| bayesian_model := BayesianNetworkModel_init ghost_parent_ontology;
        drawn := 1 |}).
Proof.
  refine (run_raises_first_failure sevenths 10
            (MonteCarloSimulator_init ghost_parent_ontology) 100
            (world_of (BayesianNetworkModel_init ghost_parent_ontology))
            ["material_delay"%string] [] "block_delay" (KeyError "ghost") _ _ _ _).
  - lia.
  - reflexivity.
  - intros g Hg. apply list_elem_of_In in Hg. destruct Hg as [<-|[]].
    eexists. reflexivity.
  - reflexivity.
Defined.

(** ** Identifiers from URI fragments *)

(** The ids of the sample graph, from the local names of its RDF
    resources. *)
Example uri_to_id_of_sample_names :
  map _uri_to_id ["MaterialDelay"; "DesignChange"; "ManpowerShortage"; "BadWeather";
                  "BlockDelay"; "Rework"; "IdleTime"; "Overtime"; "MaterialWaste";
                  "EquipmentExtend"]%string
  = keys (sample_structure (num := Q)).
Proof. reflexivity. Qed.

Example uri_to_id_of_acronym :
  _uri_to_id "getHTTPResponseCode2XX" = "get_http_response_code2_xx"%string.
Proof. reflexivity. Qed.

Lemma lower_char_no_capital (c : ascii) : is_upper (lower_char c) = false.
Proof. destruct c as [[] [] [] [] [] [] [] []]; reflexivity. Qed.

Lemma lower_char_underscore (c : ascii) :
  Ascii.eqb (lower_char c) "_" = Ascii.eqb c "_".
Proof. destruct c as [[] [] [] [] [] [] [] []]; reflexivity. Qed.

Lemma lower_char_small (c : ascii) : is_upper c = false -> lower_char c = c.
Proof. unfold lower_char. intros ->. reflexivity. Qed.

Lemma lower_no_capital (s : string) : no_capital (lower s) = true.
Proof.
  induction s as [|c s IH]; [reflexivity|].
  simpl. rewrite lower_char_no_capital, IH. reflexivity.
Qed.

Lemma lower_fixed (s : string) : no_capital s = true -> lower s = s.
Proof.
  induction s as [|c s IH]; [reflexivity|]. simpl.
  intros Hs. apply andb_true_iff in Hs as [Hc Hs]. apply negb_true_iff in Hc.
  rewrite (lower_char_small c Hc), (IH Hs). reflexivity.
Qed.

Lemma sub_word_fixed (s : string) :
  no_capital s = true -> forall mode, sub_word mode s = s.
Proof.
  induction s as [|c s IH]; intros Hs mode; [reflexivity|].
  simpl in Hs. apply andb_true_iff in Hs as [_ Hs].
  assert (Hfree : match s with
                  | String u (String l _) =>
                    if negb (is_newline c) && is_upper u && is_lower l
                    then String c (String "_" (sub_word Head s))
                    else String c (sub_word Free s)
                  | _ => String c (sub_word Free s)
                  end = String c s).
  { destruct s as [|u [|l r]]; rewrite ?IH by exact Hs; try reflexivity.
    simpl in Hs. apply andb_true_iff in Hs as [Hu _]. apply negb_true_iff in Hu.
    rewrite Hu, andb_false_r. reflexivity. }
  destruct mode; simpl.
  - exact Hfree.
  - rewrite IH by exact Hs. reflexivity.
  - destruct (is_lower c); [rewrite IH by exact Hs; reflexivity|exact Hfree].
Qed.

Lemma sub_hump_fixed (s : string) : no_capital s = true -> sub_hump s = s.
Proof.
  induction s as [|c s IH]; intros Hs; [reflexivity|].
  simpl in Hs. apply andb_true_iff in Hs as [_ Hs].
  destruct s as [|u rest]; [reflexivity|].
  change (sub_hump (String c (String u rest))) with
    (if (is_lower c || is_digit c) && is_upper u
     then String c (String "_" (String u (sub_hump rest)))
     else String c (sub_hump (String u rest))).
  pose proof Hs as Hs'. simpl in Hs'. apply andb_true_iff in Hs' as [Hu _].
  apply negb_true_iff in Hu. rewrite Hu, andb_false_r, (IH Hs). reflexivity.
Qed.

Lemma sub_word_letters (s : string) :
  forall mode, without_underscores (sub_word mode s) = without_underscores s.
Proof.
  induction s as [|c s IH]; intros mode; [reflexivity|].
  assert (Hfree : without_underscores
                    match s with
                    | String u (String l _) =>
                      if negb (is_newline c) && is_upper u && is_lower l
                      then String c (String "_" (sub_word Head s))
                      else String c (sub_word Free s)
                    | _ => String c (sub_word Free s)
                    end = without_underscores (String c s)).
  { destruct s as [|u [|l r]]; try (simpl; rewrite ?IH; reflexivity).
    destruct (negb (is_newline c) && is_upper u && is_lower l).
    - cbn [without_underscores]. rewrite (IH Head).
      change (Ascii.eqb "_" "_") with true. cbv iota. reflexivity.
    - cbn [without_underscores]. rewrite (IH Free). reflexivity. }
  destruct mode; cbn [sub_word].
  - exact Hfree.
  - cbn [without_underscores]. rewrite IH. reflexivity.
  - destruct (is_lower c); [|exact Hfree].
    cbn [without_underscores]. rewrite IH. reflexivity.
Qed.

Lemma sub_hump_letters_aux (n : nat) :
  forall s, (String.length s <= n)%nat ->
    without_underscores (sub_hump s) = without_underscores s.
Proof.
  induction n as [|n IH]; intros s Hn.
  - destruct s; [reflexivity|simpl in Hn; lia].
  - destruct s as [|c [|u rest]]; [reflexivity|reflexivity|].
    change (sub_hump (String c (String u rest))) with
      (if (is_lower c || is_digit c) && is_upper u
       then String c (String "_" (String u (sub_hump rest)))
       else String c (sub_hump (String u rest))).
    simpl in Hn.
    destruct ((is_lower c || is_digit c) && is_upper u).
    + cbn [without_underscores]. change (Ascii.eqb "_" "_") with true. cbv iota.
      rewrite (IH rest) by lia. reflexivity.
    + cbn [without_underscores]. rewrite (IH (String u rest)) by (simpl; lia).
      reflexivity.
Qed.

Lemma sub_hump_letters (s : string) :
  without_underscores (sub_hump s) = without_underscores s.
Proof. apply (sub_hump_letters_aux (String.length s)). lia. Qed.

Lemma lower_letters (s : string) :
  without_underscores (lower s) = lower (without_underscores s).
Proof.
  induction s as [|c s IH]; [reflexivity|]. simpl.
  rewrite lower_char_underscore. destruct (Ascii.eqb c "_"); [exact IH|].
  simpl. rewrite IH. reflexivity.
Qed.

Lemma lower_char_ascii (c : ascii) : is_ascii c = true -> is_ascii (lower_char c) = true.
Proof. destruct c as [[] [] [] [] [] [] [] []]; intros Hc; try discriminate Hc; reflexivity. Qed.

Lemma lower_ascii (s : string) : ascii_only s = true -> ascii_only (lower s) = true.
Proof.
  induction s as [|c s IH]; [reflexivity|]. simpl.
  intros Hs. apply andb_true_iff in Hs as [Hc Hs].
  rewrite (lower_char_ascii c Hc), (IH Hs). reflexivity.
Qed.

Lemma sub_word_ascii (s : string) :
  ascii_only s = true -> forall mode, ascii_only (sub_word mode s) = true.
Proof.
  induction s as [|c s IH]; intros Hs mode; [reflexivity|].
  simpl in Hs. apply andb_true_iff in Hs as [Hc Hs].
  assert (Hfree : ascii_only
                    match s with
                    | String u (String l _) =>
                      if negb (is_newline c) && is_upper u && is_lower l
                      then String c (String "_" (sub_word Head s))
                      else String c (sub_word Free s)
                    | _ => String c (sub_word Free s)
                    end = true).
  { destruct s as [|u [|l r]];
      try (cbn [ascii_only]; rewrite Hc, (IH Hs); reflexivity).
    destruct (negb (is_newline c) && is_upper u && is_lower l);
      cbn [ascii_only]; rewrite Hc, (IH Hs); reflexivity. }
  destruct mode; cbn [sub_word].
  - exact Hfree.
  - cbn [ascii_only]. rewrite Hc, (IH Hs). reflexivity.
  - destruct (is_lower c); [|exact Hfree].
    cbn [ascii_only]. rewrite Hc, (IH Hs). reflexivity.
Qed.

Lemma sub_hump_ascii_aux (n : nat) :
  forall s, (String.length s <= n)%nat ->
    ascii_only s = true -> ascii_only (sub_hump s) = true.
Proof.
  induction n as [|n IH]; intros s Hn Hs.
  - destruct s; [reflexivity|simpl in Hn; lia].
  - destruct s as [|c [|u rest]]; [reflexivity|exact Hs|].
    change (sub_hump (String c (String u rest))) with
      (if (is_lower c || is_digit c) && is_upper u
       then String c (String "_" (String u (sub_hump rest)))
       else String c (sub_hump (String u rest))).
    simpl in Hn. pose proof Hs as Hs'. cbn [ascii_only] in Hs'.
    apply andb_true_iff in Hs' as [Hc Htl]. pose proof Htl as Htl'.
    apply andb_true_iff in Htl' as [Hu Hrest].
    destruct ((is_lower c || is_digit c) && is_upper u).
    + cbn [ascii_only]. rewrite Hc, Hu, (IH rest) by (lia || assumption). reflexivity.
    + cbn [ascii_only]. rewrite Hc. apply (IH (String u rest)); [simpl; lia|].
      cbn [ascii_only]. exact Htl.
Qed.

Lemma sub_hump_ascii (s : string) : ascii_only s = true -> ascii_only (sub_hump s) = true.
Proof. apply (sub_hump_ascii_aux (String.length s)). lia. Qed.

(** X22. [_uri_to_id], on strings of ASCII characters: an identifier
    without capital letters, such as an id that is already in snake case,
    is returned unchanged. *)
Theorem uri_to_id_keeps_snake_case (uri_fragment : string) :
  ascii_only uri_fragment = true ->
  no_capital uri_fragment = true ->
  _uri_to_id uri_fragment = uri_fragment.
Proof.
  intros _ Hs. unfold _uri_to_id.
  rewrite (sub_word_fixed _ Hs), (sub_hump_fixed _ Hs). apply lower_fixed, Hs.
Qed.

Lemma uri_to_id_keeps_material_delay :
  _uri_to_id "material_delay" = "material_delay"%string.
Proof. apply uri_to_id_keeps_snake_case; reflexivity. Defined.

(** X23. [_uri_to_id], on strings of ASCII characters: the result is a
    string of ASCII characters without a capital letter, and converting it
    a second time changes nothing. *)
Theorem uri_to_id_is_idempotent (uri_fragment : string) :
  ascii_only uri_fragment = true ->
  ascii_only (_uri_to_id uri_fragment) = true
  /\ no_capital (_uri_to_id uri_fragment) = true
  /\ _uri_to_id (_uri_to_id uri_fragment) = _uri_to_id uri_fragment.
Proof.
  intros Hascii.
  assert (Hn : no_capital (_uri_to_id uri_fragment) = true)
    by apply lower_no_capital.
  split; [|split; [exact Hn|]].
  - unfold _uri_to_id. apply lower_ascii, sub_hump_ascii, sub_word_ascii, Hascii.
  - unfold _uri_to_id at 1.
    rewrite (sub_word_fixed _ Hn), (sub_hump_fixed _ Hn). apply lower_fixed, Hn.
Qed.

Lemma uri_to_id_of_response_code_is_idempotent :
  ascii_only (_uri_to_id "getHTTPResponseCode") = true
  /\ no_capital (_uri_to_id "getHTTPResponseCode") = true
  /\ _uri_to_id (_uri_to_id "getHTTPResponseCode") = _uri_to_id "getHTTPResponseCode".
Proof. apply uri_to_id_is_idempotent. reflexivity. Defined.

(** X24. [_uri_to_id], on strings of ASCII characters: the conversion
    only inserts underscores and turns capitals into small letters:
    without its underscores, the result is the lower-cased input without
    its underscores. *)
Theorem uri_to_id_only_inserts_underscores (uri_fragment : string) :
  ascii_only uri_fragment = true ->
  without_underscores (_uri_to_id uri_fragment)
  = lower (without_underscores uri_fragment).
Proof.
  intros _. unfold _uri_to_id.
  rewrite lower_letters, sub_hump_letters, sub_word_letters.
  reflexivity.
Qed.

Lemma uri_to_id_of_block_delay_inserts_underscores :
  without_underscores (_uri_to_id "Block_DelayV2") = "blockdelayv2"%string.
Proof.
  exact (uri_to_id_only_inserts_underscores "Block_DelayV2" eq_refl).
Defined.
